(** * Human Pages MCP server: the tool layer (tools.ts)

    The development embeds the CallTool request handler of the MCP server
    (createServer in tools.ts): the construction of every request the handler
    sends to the backend API (the "collaborator"), the local credential
    checks, the mapping of non-ok responses to thrown errors, the catch-all
    that turns every thrown error into an [isError] result, and the next-step
    guidance of get_job_status.

    Modelling decisions, all stated where they are made:
    - JavaScript values are [JValue]; numbers are the integer-valued ones
      (fractions, NaN and the infinities are outside the embedding).
    - [fetch] is an event of a small free monad [Prog]; a handler is a
      program that emits requests and continues on the answers, and it is run
      against an arbitrary, possibly stateful, collaborator.
    - The Markdown rendering of a successful response is a parameter
      ([render]) wherever the rendered text is a function of the response JSON
      alone; it may throw, as the property accesses of the source may.

    Besides the handler the development embeds the table of tools the
    ListTools handler advertises, the create_job_offer branch and the
    next-step guidance of the first server (index.ts), the record_job branch
    of the bundled release (bundle/index.js), and the line framing of the
    client the integration tests drive the server with (mcp.test.ts). *)

From Stdlib Require Import ZArith String Ascii List Bool Lia.
From stdpp Require Import base option list gmap strings pretty.
Import ListNotations.

Set Warnings "-register-all".

Local Open Scope string_scope.
Local Open Scope Z_scope.

(** ** JavaScript values and the primitive operations the handler uses *)

Module JS.

Inductive JValue : Type :=
| JUndefined
| JNull
| JBool (b : bool)
| JNum (n : Z)
| JStr (s : string)
| JArr (items : list JValue)
| JObj (fields : list (string * JValue)).

(** The result of an expression that may throw: the value, or the message of
    the Error that was thrown. *)
Inductive Res (A : Type) : Type :=
| Value (a : A)
| Raise (msg : string).
Arguments Value {A} a.
Arguments Raise {A} msg.

#[export] Instance res_ret : MRet Res := fun _ a => Value a.
#[export] Instance res_bind : MBind Res := fun _ _ f r =>
  match r with
  | Value a => f a
  | Raise m => Raise m
  end.

(** ToBoolean: [if (x)], [x || y], [x ? a : b]. *)
Definition truthy (v : JValue) : bool :=
  match v with
  | JUndefined | JNull => false
  | JBool b => b
  | JNum n => negb (n =? 0)
  | JStr s => negb (String.eqb s EmptyString)
  | JArr _ | JObj _ => true
  end.

(** [a || b] *)
Definition or_else (a b : JValue) : JValue := if truthy a then a else b.

(** [v === 'literal'] *)
Definition is_str (v : JValue) (lit : string) : bool :=
  match v with
  | JStr s => String.eqb s lit
  | _ => false
  end.

(** [v !== false] *)
Definition not_false (v : JValue) : bool :=
  match v with
  | JBool false => false
  | _ => true
  end.

(** ToString, as a template literal, [String(v)], [new Error(v)] and
    [URLSearchParams.set] apply it.  An array joins its items with a comma,
    printing null and undefined items as the empty string.  A number prints
    in plain decimal, as JavaScript prints the integers below 10^21. *)
Fixpoint to_string (v : JValue) : string :=
  match v with
  | JUndefined => "undefined"
  | JNull => "null"
  | JBool true => "true"
  | JBool false => "false"
  | JNum n => pretty n
  | JStr s => s
  | JArr items =>
      (fix join (l : list JValue) : string :=
         match l with
         | [] => EmptyString
         | x :: rest =>
             let sx := match x with
                       | JUndefined | JNull => EmptyString
                       | _ => to_string x
                       end in
             match rest with
             | [] => sx
             | _ :: _ => sx +:+ "," +:+ join rest
             end
         end) items
  | JObj _ => "[object Object]"
  end.

(** Own data property of an object literal; an absent key reads as
    undefined. *)
Fixpoint own (fields : list (string * JValue)) (k : string) : JValue :=
  match fields with
  | [] => JUndefined
  | (k', v) :: rest => if String.eqb k' k then v else own rest k
  end.

(** [v.k]: a TypeError on undefined and null.  The property names read by the
    handler are data fields of the API's JSON, none of them a member of a
    primitive's prototype, so a primitive reads as undefined. *)
Definition get (v : JValue) (k : string) : Res JValue :=
  match v with
  | JUndefined =>
      Raise ("Cannot read properties of undefined (reading '" +:+ k +:+ "')")
  | JNull =>
      Raise ("Cannot read properties of null (reading '" +:+ k +:+ "')")
  | JObj fields => Value (own fields k)
  | _ => Value JUndefined
  end.

(** [v?.k] *)
Definition get_opt (v : JValue) (k : string) : JValue :=
  match v with
  | JObj fields => own fields k
  | _ => JUndefined
  end.

(** [String.prototype.includes] *)
Fixpoint includes (hay needle : string) : bool :=
  String.prefix needle hay
  || match hay with
     | EmptyString => false
     | String _ rest => includes rest needle
     end.

End JS.
Export JS.

(** The line feed and the double quote of the source's string literals. *)
Definition nl : string := String (ascii_of_nat 10) EmptyString.
Definition dq : string := String (ascii_of_nat 34) EmptyString.

(** ** Requests, responses and handler programs *)

Module Http.

Inductive Method : Type := GET | POST | PATCH | DELETE.

(** What [fetch(url, init)] is called with.  [url] is the address up to the
    query; [query] holds the [URLSearchParams] appended after the question
    mark when the source builds one (its form-urlencoded serialization is
    injective on this list and is not modelled).  [body] is the object handed
    to [JSON.stringify], without the fields that it drops. *)
Record Request : Type := mkRequest {
  url : string;
  query : option (list (string * string));
  method : Method;
  headers : list (string * string);
  body : option (list (string * JValue))
}.

(** A response of the collaborator: its status line and what [res.json()]
    yields, the parsed body or the SyntaxError of a body that is no JSON. *)
Record Response : Type := mkResponse {
  status : Z;
  json : Res JValue
}.

(** [res.ok] *)
Definition ok (res : Response) : bool :=
  (200 <=? status res) && (status res <=? 299).

(** A [fetch] promise settles with a response or rejects (network failure). *)
Inductive FetchResult : Type :=
| Resolved (res : Response)
| Rejected (msg : string).

(** Handler programs: return, throw, or fetch and continue. *)
Inductive Prog (A : Type) : Type :=
| Ret (a : A)
| Throw (msg : string)
| Fetch (req : Request) (k : FetchResult -> Prog A).
Arguments Ret {A} a.
Arguments Throw {A} msg.
Arguments Fetch {A} req k.

Fixpoint prog_bind {A B : Type} (f : A -> Prog B) (p : Prog A) : Prog B :=
  match p with
  | Ret a => f a
  | Throw m => Throw m
  | Fetch req k => Fetch req (fun r => prog_bind f (k r))
  end.

#[export] Instance prog_ret : MRet Prog := fun _ a => Ret a.
#[export] Instance prog_mbind : MBind Prog := fun _ _ f p => prog_bind f p.

(** [await fetch(...)]: a rejected promise throws at the await. *)
Definition fetch (req : Request) : Prog Response :=
  Fetch req (fun r =>
    match r with
    | Resolved res => Ret res
    | Rejected m => Throw m
    end).

(** A synchronous expression that may throw, inside a handler. *)
Definition lift {A : Type} (r : Res A) : Prog A :=
  match r with
  | Value a => Ret a
  | Raise m => Throw m
  end.

(** [try { p } catch (error) { h error.message }] *)
Fixpoint try_catch {A : Type} (p : Prog A) (h : string -> Prog A) : Prog A :=
  match p with
  | Ret a => Ret a
  | Throw m => h m
  | Fetch req k => Fetch req (fun r => try_catch (k r) h)
  end.

(** The first value of a header, as [Headers.get] reads it. *)
Fixpoint header (hs : list (string * string)) (name : string) : option string :=
  match hs with
  | [] => None
  | (n, v) :: rest => if String.eqb n name then Some v else header rest name
  end.

(** [URLSearchParams.set]: replaces the value of an existing name and drops
    its later duplicates, appends otherwise. *)
Fixpoint qset (q : list (string * string)) (k v : string) : list (string * string) :=
  match q with
  | [] => [(k, v)]
  | (k', v') :: rest =>
      if String.eqb k' k
      then (k, v) :: List.filter (fun p => negb (String.eqb (fst p) k)) rest
      else (k', v') :: qset rest k v
  end.

(** The fields of an object literal that [JSON.stringify] keeps: a field
    whose value is undefined is left out of the JSON text. *)
Definition json_body (fields : list (string * JValue)) : option (list (string * JValue)) :=
  Some (List.filter (fun kv => match snd kv with JUndefined => false | _ => true end) fields).

(** *** Running a handler against a collaborator

    The collaborator is any state machine answering requests; [St] is its
    state (the backend's database, the chain, the clock).  A run records the
    requests sent and the answers received, in order. *)
Record Run (A St : Type) : Type := mkRun {
  outcome : Res A;
  sent : list Request;
  received : list FetchResult;
  final : St
}.
Arguments mkRun {A St} _ _ _ _.
Arguments outcome {A St} _.
Arguments sent {A St} _.
Arguments received {A St} _.
Arguments final {A St} _.

Fixpoint exec {A St : Type} (respond : St -> Request -> FetchResult * St)
    (p : Prog A) (s : St) : Run A St :=
  match p with
  | Ret a => mkRun (Value a) [] [] s
  | Throw m => mkRun (Raise m) [] [] s
  | Fetch req k =>
      let '(ans, s') := respond s req in
      let r := exec respond (k ans) s' in
      mkRun (outcome r) (req :: sent r) (ans :: received r) (final r)
  end.

(** The same handler fed a fixed script of answers (a missing answer is a
    rejected fetch): the answers are all a handler sees of a collaborator. *)
Definition scripted (script : list FetchResult) (_ : Request) : FetchResult * list FetchResult :=
  match script with
  | [] => (Rejected "fetch failed", [])
  | a :: rest => (a, rest)
  end.

End Http.
Export Http.

(** ** The tool layer *)

(** The arguments of a tool call, [request.params.arguments]: a JSON object
    used as a map from argument names to values. *)
Abbreviation Args := (gmap string JValue).

(** [args?.k]: an absent argument (and an absent [arguments] object, here the
    empty map) reads as undefined. *)
Definition arg (args : Args) (k : string) : JValue := default JUndefined (args !! k).

(** The result handed back to the MCP client: one text content item and the
    error flag (the source leaves [isError] out of a success result). *)
Record ToolResult : Type := mkToolResult {
  text : string;
  isError : bool
}.

(** The tools the handler answers to, in the order of its branches. *)
Inductive Tool : Type :=
| search_humans | get_human | register_agent | get_agent_profile
| verify_agent_domain | create_job_offer | get_job_status | mark_job_paid
| check_humanity_status | get_human_profile | request_activation_code
| verify_social_activation | get_activation_status | get_payment_activation
| verify_payment_activation | start_stream | record_stream_tick | pause_stream
| resume_stream | stop_stream | send_job_message | get_job_messages
| create_listing | get_listings | get_listing | get_listing_applications
| make_listing_offer | cancel_listing | get_promo_status
| claim_free_pro_upgrade | leave_review.

Definition tool_name (t : Tool) : string :=
  match t with
  | search_humans => "search_humans" | get_human => "get_human"
  | register_agent => "register_agent" | get_agent_profile => "get_agent_profile"
  | verify_agent_domain => "verify_agent_domain"
  | create_job_offer => "create_job_offer" | get_job_status => "get_job_status"
  | mark_job_paid => "mark_job_paid"
  | check_humanity_status => "check_humanity_status"
  | get_human_profile => "get_human_profile"
  | request_activation_code => "request_activation_code"
  | verify_social_activation => "verify_social_activation"
  | get_activation_status => "get_activation_status"
  | get_payment_activation => "get_payment_activation"
  | verify_payment_activation => "verify_payment_activation"
  | start_stream => "start_stream" | record_stream_tick => "record_stream_tick"
  | pause_stream => "pause_stream" | resume_stream => "resume_stream"
  | stop_stream => "stop_stream" | send_job_message => "send_job_message"
  | get_job_messages => "get_job_messages" | create_listing => "create_listing"
  | get_listings => "get_listings" | get_listing => "get_listing"
  | get_listing_applications => "get_listing_applications"
  | make_listing_offer => "make_listing_offer" | cancel_listing => "cancel_listing"
  | get_promo_status => "get_promo_status"
  | claim_free_pro_upgrade => "claim_free_pro_upgrade"
  | leave_review => "leave_review"
  end.

Definition all_tools : list Tool :=
  [ search_humans; get_human; register_agent; get_agent_profile;
    verify_agent_domain; create_job_offer; get_job_status; mark_job_paid;
    check_humanity_status; get_human_profile; request_activation_code;
    verify_social_activation; get_activation_status; get_payment_activation;
    verify_payment_activation; start_stream; record_stream_tick; pause_stream;
    resume_stream; stop_stream; send_job_message; get_job_messages;
    create_listing; get_listings; get_listing; get_listing_applications;
    make_listing_offer; cancel_listing; get_promo_status;
    claim_free_pro_upgrade; leave_review ].

(** The chain of [if (name === '...')] tests: the first branch whose literal
    equals the requested name. *)
Definition tool_of_name (name : string) : option Tool :=
  List.find (fun t => String.eqb name (tool_name t)) all_tools.

(** The message of the Error thrown by an expression that throws either way:
    its value is the argument of [new Error], its exception takes its place. *)
Definition thrown (r : Res string) : string :=
  match r with
  | Value m => m
  | Raise m => m
  end.

(** [error.a || error.b || fallback], then [new Error(...)]'s ToString. *)
Fixpoint pick (error : JValue) (names : list string) (fallback : string) : Res string :=
  match names with
  | [] => Value fallback
  | n :: rest =>
      v ← get error n;
      if truthy v then Value (to_string v) else pick error rest fallback
  end.

(** The non-ok branch shared by most handlers:
    [const error = await res.json(); throw new Error(error.a || ... ||
    `API error: ${res.status}`)]. *)
Definition api_error (res : Response) (names : list string) : string :=
  thrown (error ← json res;
          pick error names ("API error: " +:+ pretty (status res))).

(** The non-ok branch of create_job_offer, get_human_profile and
    create_listing: a 403 whose body carries the code AGENT_PENDING is answered
    with this layer's activation guidance, anything else as [api_error]. *)
Definition pending_or (res : Response) (guidance : string) (names : list string) : string :=
  thrown (error ← json res;
          pending ← (if status res =? 403
                     then code ← get error "code"; mret (is_str code "AGENT_PENDING")
                     else mret false);
          if (pending : bool) then Value guidance
          else pick error names ("API error: " +:+ pretty (status res))).

Definition content_type_json : string * string := ("Content-Type", "application/json").
Definition x_agent_key (agentKey : JValue) : string * string :=
  ("X-Agent-Key", to_string agentKey).

(** [fetch(url)] with no init: a GET without headers or body. *)
Definition plain_get (u : string) (q : option (list (string * string))) : Request :=
  {| url := u; query := q; method := GET; headers := []; body := None |}.

Section Server.

(** [process.env.API_BASE_URL || 'http://localhost:3001'], read once when the
    module loads and never assigned again. *)
Variable API_BASE : string.

(** The Markdown text of a successful call, for the tools whose text is
    computed from the response JSON alone ([render]) or from the arguments and
    the response JSON ([render_args]: mark_job_paid and leave_review echo
    their arguments).  Either may throw. *)
Variable render : Tool -> JValue -> Res string.
Variable render_args : Tool -> Args -> JValue -> Res string.

(** *** searchHumans and getHuman *)

Record SearchParams : Type := mkSearchParams {
  skill : JValue;
  equipment : JValue;
  language : JValue;
  location : JValue;
  lat : JValue;
  lng : JValue;
  radius : JValue;
  max_rate : JValue;
  available_only : bool;
  work_mode : JValue;
  verified : JValue
}.

(** [if (v) query.set(name, String(v))] *)
Definition set_if (v : JValue) (name : string) (q : list (string * string)) :
    list (string * string) :=
  if truthy v then qset q name (to_string v) else q.

Definition searchHumans (params : SearchParams) : Prog JValue :=
  let query := [] in
  let query := set_if (skill params) "skill" query in
  let query := set_if (equipment params) "equipment" query in
  let query := set_if (language params) "language" query in
  let query := set_if (location params) "location" query in
  let query := set_if (lat params) "lat" query in
  let query := set_if (lng params) "lng" query in
  let query := set_if (radius params) "radius" query in
  let query := set_if (max_rate params) "maxRate" query in
  let query := if available_only params then qset query "available" "true" else query in
  let query := set_if (work_mode params) "workMode" query in
  let query := set_if (verified params) "verified" query in
  res ← fetch (plain_get (API_BASE +:+ "/api/humans/search") (Some query));
  if negb (ok res) then Throw ("API error: " +:+ pretty (status res))
  else lift (json res).

Definition getHuman (id : JValue) : Prog JValue :=
  res ← fetch (plain_get (API_BASE +:+ "/api/humans/" +:+ to_string id) None);
  if negb (ok res) then Throw ("Human not found: " +:+ to_string id)
  else lift (json res).

(** *** The branches of the CallTool handler *)

Definition handle_search_humans (args : Args) : Prog string :=
  humans ← searchHumans {|
    skill := arg args "skill";
    equipment := arg args "equipment";
    language := arg args "language";
    location := arg args "location";
    lat := arg args "lat";
    lng := arg args "lng";
    radius := arg args "radius";
    max_rate := arg args "max_rate";
    available_only := not_false (arg args "available_only");
    work_mode := arg args "work_mode";
    verified := arg args "verified" |};
  lift (render search_humans humans).

Definition handle_get_human (args : Args) : Prog string :=
  human ← getHuman (arg args "id");
  lift (render get_human human).

Definition handle_register_agent (args : Args) : Prog string :=
  res ← fetch {|
    url := API_BASE +:+ "/api/agents/register";
    query := None;
    method := POST;
    headers := [content_type_json];
    body := json_body [ ("name", arg args "name");
                        ("description", arg args "description");
                        ("websiteUrl", arg args "website_url");
                        ("contactEmail", arg args "contact_email") ] |};
  if negb (ok res) then Throw (api_error res ["error"])
  else
    result ← lift (json res);
    lift (render register_agent result).

Definition handle_get_agent_profile (args : Args) : Prog string :=
  res ← fetch (plain_get (API_BASE +:+ "/api/agents/" +:+ to_string (arg args "agent_id")) None);
  if negb (ok res) then Throw ("Agent not found: " +:+ to_string (arg args "agent_id"))
  else
    agent ← lift (json res);
    lift (render get_agent_profile agent).

(** verify_agent_domain sends [args?.agent_key] as it is, with no local
    check. *)
Definition handle_verify_agent_domain (args : Args) : Prog string :=
  res ← fetch {|
    url := API_BASE +:+ "/api/agents/" +:+ to_string (arg args "agent_id") +:+ "/verify-domain";
    query := None;
    method := POST;
    headers := [content_type_json; x_agent_key (arg args "agent_key")];
    body := json_body [ ("method", arg args "method") ] |};
  if negb (ok res) then Throw (api_error res ["message"; "error"])
  else
    result ← lift (json res);
    lift (render verify_agent_domain result).

Definition create_job_offer_key_required : string :=
  "agent_key is required. Register first with register_agent to get an API key.".

Definition create_job_offer_pending : string :=
  "Agent is not yet activated. You must activate before creating jobs." +:+ nl
  +:+ "- Free (BASIC tier): Use `request_activation_code` → post on social media → `verify_social_activation`" +:+ nl
  +:+ "- Paid (PRO tier): Use `get_payment_activation` → send payment → `verify_payment_activation`" +:+ nl
  +:+ "Check your status with `get_activation_status`.".

(** The success text of create_job_offer. *)
Definition job_offer_created (args : Args) (job human : JValue) : Res string :=
  webhookNote ←
    (if truthy (arg args "callback_url")
     then mret (nl +:+ nl +:+ "🔔 **Webhook configured.** Status updates will be sent to your callback URL. On acceptance, the human's contact info will be included in the webhook payload.")
     else id ← get job "id";
          mret (nl +:+ nl +:+ "Use `get_job_status` with job_id " +:+ dq +:+ to_string id +:+ dq
                +:+ " to check if they've accepted."));
  id ← get job "id";
  status ← get job "status";
  name ← get human "name";
  mret ("**Job Offer Created!**" +:+ nl +:+ nl
        +:+ "**Job ID:** " +:+ to_string id +:+ nl
        +:+ "**Status:** " +:+ to_string status +:+ nl
        +:+ "**Human:** " +:+ to_string name +:+ nl
        +:+ "**Price:** $" +:+ to_string (arg args "price_usdc") +:+ " USDC" +:+ nl +:+ nl
        +:+ "⏳ **Next Step:** Wait for " +:+ to_string name +:+ " to accept the offer."
        +:+ webhookNote +:+ nl +:+ nl
        +:+ "Once accepted, you can send payment to their wallet and use `mark_job_paid` to record the transaction.").

Definition handle_create_job_offer (args : Args) : Prog string :=
  let agentKey := arg args "agent_key" in
  if negb (truthy agentKey) then Throw create_job_offer_key_required
  else
    res ← fetch {|
      url := API_BASE +:+ "/api/jobs";
      query := None;
      method := POST;
      headers := [content_type_json; x_agent_key agentKey];
      body := json_body [ ("humanId", arg args "human_id");
                          ("agentId", arg args "agent_id");
                          ("agentName", arg args "agent_name");
                          ("title", arg args "title");
                          ("description", arg args "description");
                          ("category", arg args "category");
                          ("priceUsdc", arg args "price_usdc");
                          ("paymentMode", arg args "payment_mode");
                          ("paymentTiming", arg args "payment_timing");
                          ("streamMethod", arg args "stream_method");
                          ("streamInterval", arg args "stream_interval");
                          ("streamRateUsdc", arg args "stream_rate_usdc");
                          ("streamMaxTicks", arg args "stream_max_ticks");
                          ("callbackUrl", arg args "callback_url");
                          ("callbackSecret", arg args "callback_secret") ] |};
    if negb (ok res) then Throw (pending_or res create_job_offer_pending ["error"])
    else
      job ← lift (json res);
      human ← getHuman (arg args "human_id");
      lift (job_offer_created args job human).

(** The [nextStep] of get_job_status: [isStream], [streamSummary] and the
    switch on [job.status]; a status matching no case leaves it empty. *)
Definition nextStep (job : JValue) : Res string :=
  paymentMode ← get job "paymentMode";
  let isStream := is_str paymentMode "STREAM" in
  streamSummary ← get job "streamSummary";
  status ← get job "status";
  if is_str status "PENDING" then
    mret "Waiting for the human to accept or reject."
  else if is_str status "ACCEPTED" then
    if isStream then
      method ← get job "streamMethod";
      mret (if is_str method "SUPERFLUID"
            then "Human accepted! Create a Superfluid flow to their wallet, then use `start_stream` with your sender address to verify."
            else "Human accepted! Use `start_stream` to lock the network/token and start sending payments.")
    else
      callbackUrl ← get job "callbackUrl";
      priceUsdc ← get job "priceUsdc";
      mret (if truthy callbackUrl
            then "Human accepted! Contact info was sent to your webhook. Send $"
                 +:+ to_string priceUsdc
                 +:+ " USDC to their wallet, then use `mark_job_paid` with the transaction hash."
            else "Human accepted! Send $" +:+ to_string priceUsdc
                 +:+ " USDC to their wallet, then use `mark_job_paid` with the transaction hash.")
  else if is_str status "REJECTED" then
    mret "The human rejected this offer. Consider adjusting your offer or finding another human."
  else if is_str status "PAID" then
    mret "Payment recorded. Work is in progress. The human will mark it complete when done."
  else if is_str status "STREAMING" then
    let totalPaid := to_string (or_else (get_opt streamSummary "totalPaid") (JStr "0")) in
    mret (if is_str (get_opt streamSummary "method") "SUPERFLUID"
          then "Stream active via Superfluid. Total streamed: $" +:+ totalPaid
               +:+ " USDC. Use `pause_stream` or `stop_stream` to manage."
          else "Stream active via micro-transfer. Total paid: $" +:+ totalPaid
               +:+ " USDC. Use `record_stream_tick` to submit each payment.")
  else if is_str status "PAUSED" then
    mret "Stream is paused. Use `resume_stream` to continue or `stop_stream` to end permanently."
  else if is_str status "COMPLETED" then
    review ← get job "review";
    if truthy review then
      rating ← get review "rating";
      mret ("Review submitted: " +:+ to_string rating +:+ "/5 stars")
    else mret "Job complete! You can now use `leave_review` to rate the human."
  else mret EmptyString.

(** The text of get_job_status ends with the next step; the lines before it
    (identifiers, status, agent and stream summary) are rendered from the
    job. *)
Definition handle_get_job_status (args : Args) : Prog string :=
  res ← fetch (plain_get (API_BASE +:+ "/api/jobs/" +:+ to_string (arg args "job_id")) None);
  if negb (ok res) then Throw ("Job not found: " +:+ to_string (arg args "job_id"))
  else
    job ← lift (json res);
    step ← lift (nextStep job);
    summary ← lift (render get_job_status job);
    mret (summary +:+ nl +:+ "**Next Step:** " +:+ step).

Definition handle_mark_job_paid (args : Args) : Prog string :=
  res ← fetch {|
    url := API_BASE +:+ "/api/jobs/" +:+ to_string (arg args "job_id") +:+ "/paid";
    query := None;
    method := PATCH;
    headers := [content_type_json];
    body := json_body [ ("paymentTxHash", arg args "payment_tx_hash");
                        ("paymentNetwork", arg args "payment_network");
                        ("paymentAmount", arg args "payment_amount") ] |};
  if negb (ok res) then Throw (api_error res ["reason"; "error"])
  else
    result ← lift (json res);
    lift (render_args mark_job_paid args result).

Definition handle_check_humanity_status (args : Args) : Prog string :=
  human ← getHuman (arg args "human_id");
  lift (render check_humanity_status human).

Definition get_human_profile_pending : string :=
  "Agent is not yet activated. Activate first using request_activation_code or get_payment_activation.".

Definition handle_get_human_profile (args : Args) : Prog string :=
  let agentKey := arg args "agent_key" in
  if negb (truthy agentKey) then Throw "agent_key is required. Register and activate first."
  else
    res ← fetch {|
      url := API_BASE +:+ "/api/humans/" +:+ to_string (arg args "human_id") +:+ "/profile";
      query := None;
      method := GET;
      headers := [x_agent_key agentKey];
      body := None |};
    if negb (ok res) then Throw (pending_or res get_human_profile_pending ["error"])
    else
      human ← lift (json res);
      lift (render get_human_profile human).

(** The shape shared by the remaining credentialed branches: the local check
    of [agent_key], one request carrying it, the non-ok branch, the text.
    [with_content_type] tells whether the header object also names
    Content-Type (the GET and DELETE branches name X-Agent-Key alone). *)
Definition keyed_call (t : Tool) (args : Args) (required : string)
    (m : Method) (with_content_type : bool) (path : string)
    (fields : option (list (string * JValue))) (error_names : list string) : Prog string :=
  let agentKey := arg args "agent_key" in
  if negb (truthy agentKey) then Throw required
  else
    res ← fetch {|
      url := API_BASE +:+ path;
      query := None;
      method := m;
      headers := (if with_content_type then [content_type_json] else [])
                 ++ [x_agent_key agentKey];
      body := fields ≫= json_body |};
    if negb (ok res) then Throw (api_error res error_names)
    else
      result ← lift (json res);
      lift (render t result).

Definition handle_request_activation_code (args : Args) : Prog string :=
  keyed_call request_activation_code args "agent_key is required."
    POST true "/api/agents/activate/social" None ["error"].

Definition handle_verify_social_activation (args : Args) : Prog string :=
  keyed_call verify_social_activation args "agent_key is required."
    POST true "/api/agents/activate/social/verify"
    (Some [ ("postUrl", arg args "post_url") ]) ["error"].

Definition handle_get_activation_status (args : Args) : Prog string :=
  keyed_call get_activation_status args "agent_key is required."
    GET false "/api/agents/activate/status" None ["error"].

Definition handle_get_payment_activation (args : Args) : Prog string :=
  keyed_call get_payment_activation args "agent_key is required."
    POST true "/api/agents/activate/payment" None ["error"].

Definition handle_verify_payment_activation (args : Args) : Prog string :=
  keyed_call verify_payment_activation args "agent_key is required."
    POST true "/api/agents/activate/payment/verify"
    (Some [ ("txHash", arg args "tx_hash"); ("network", arg args "network") ]) ["error"].

Definition job_path (args : Args) (suffix : string) : string :=
  "/api/jobs/" +:+ to_string (arg args "job_id") +:+ suffix.

Definition handle_start_stream (args : Args) : Prog string :=
  keyed_call start_stream args "agent_key is required."
    PATCH true (job_path args "/start-stream")
    (Some [ ("senderAddress", arg args "sender_address");
            ("network", arg args "network");
            ("token", or_else (arg args "token") (JStr "USDC")) ])
    ["hint"; "error"].

Definition handle_record_stream_tick (args : Args) : Prog string :=
  keyed_call record_stream_tick args "agent_key is required."
    PATCH true (job_path args "/stream-tick")
    (Some [ ("txHash", arg args "tx_hash") ]) ["error"].

Definition handle_pause_stream (args : Args) : Prog string :=
  keyed_call pause_stream args "agent_key is required."
    PATCH true (job_path args "/pause-stream") None ["hint"; "error"].

Definition handle_resume_stream (args : Args) : Prog string :=
  keyed_call resume_stream args "agent_key is required."
    PATCH true (job_path args "/resume-stream")
    (Some [ ("senderAddress", arg args "sender_address") ]) ["hint"; "error"].

Definition handle_stop_stream (args : Args) : Prog string :=
  keyed_call stop_stream args "agent_key is required."
    PATCH true (job_path args "/stop-stream") None ["error"].

Definition handle_send_job_message (args : Args) : Prog string :=
  keyed_call send_job_message args "agent_key is required."
    POST true (job_path args "/messages")
    (Some [ ("content", arg args "content") ]) ["error"].

Definition handle_get_job_messages (args : Args) : Prog string :=
  keyed_call get_job_messages args "agent_key is required."
    GET false (job_path args "/messages") None ["error"].

Definition create_listing_pending : string :=
  "Agent is not yet activated. You must activate before creating listings." +:+ nl
  +:+ "- Free (BASIC tier): Use `request_activation_code` → post on social media → `verify_social_activation`" +:+ nl
  +:+ "- Paid (PRO tier): Use `get_payment_activation` → send payment → `verify_payment_activation`".

Definition handle_create_listing (args : Args) : Prog string :=
  let agentKey := arg args "agent_key" in
  if negb (truthy agentKey) then Throw "agent_key is required."
  else
    res ← fetch {|
      url := API_BASE +:+ "/api/listings";
      query := None;
      method := POST;
      headers := [content_type_json; x_agent_key agentKey];
      body := json_body [ ("title", arg args "title");
                          ("description", arg args "description");
                          ("budgetUsdc", arg args "budget_usdc");
                          ("category", arg args "category");
                          ("requiredSkills", or_else (arg args "required_skills") (JArr []));
                          ("requiredEquipment", or_else (arg args "required_equipment") (JArr []));
                          ("location", arg args "location");
                          ("locationLat", arg args "location_lat");
                          ("locationLng", arg args "location_lng");
                          ("radiusKm", arg args "radius_km");
                          ("workMode", arg args "work_mode");
                          ("expiresAt", arg args "expires_at");
                          ("maxApplicants", arg args "max_applicants");
                          ("callbackUrl", arg args "callback_url");
                          ("callbackSecret", arg args "callback_secret") ] |};
    if negb (ok res) then Throw (pending_or res create_listing_pending ["message"; "error"])
    else
      result ← lift (json res);
      lift (render create_listing result).

Definition handle_get_listings (args : Args) : Prog string :=
  let query := [] in
  let query := set_if (arg args "page") "page" query in
  let query := set_if (arg args "limit") "limit" query in
  let query := set_if (arg args "skill") "skill" query in
  let query := set_if (arg args "category") "category" query in
  let query := set_if (arg args "work_mode") "workMode" query in
  let query := set_if (arg args "min_budget") "minBudget" query in
  let query := set_if (arg args "max_budget") "maxBudget" query in
  let query := set_if (arg args "lat") "lat" query in
  let query := set_if (arg args "lng") "lng" query in
  let query := set_if (arg args "radius") "radius" query in
  res ← fetch (plain_get (API_BASE +:+ "/api/listings") (Some query));
  if negb (ok res) then Throw ("API error: " +:+ pretty (status res))
  else
    result ← lift (json res);
    lift (render get_listings result).

Definition handle_get_listing (args : Args) : Prog string :=
  res ← fetch (plain_get (API_BASE +:+ "/api/listings/" +:+ to_string (arg args "listing_id")) None);
  if negb (ok res) then
    if status res =? 404
    then Throw ("Listing not found: " +:+ to_string (arg args "listing_id"))
    else Throw ("API error: " +:+ pretty (status res))
  else
    listing ← lift (json res);
    lift (render get_listing listing).

Definition listing_path (args : Args) (suffix : string) : string :=
  "/api/listings/" +:+ to_string (arg args "listing_id") +:+ suffix.

Definition handle_get_listing_applications (args : Args) : Prog string :=
  keyed_call get_listing_applications args "agent_key is required."
    GET false (listing_path args "/applications") None ["error"].

Definition handle_make_listing_offer (args : Args) : Prog string :=
  keyed_call make_listing_offer args "agent_key is required."
    POST true
    (listing_path args ("/applications/" +:+ to_string (arg args "application_id") +:+ "/offer"))
    (Some [ ("confirm", JBool true) ]) ["message"; "error"].

Definition handle_cancel_listing (args : Args) : Prog string :=
  keyed_call cancel_listing args "agent_key is required."
    DELETE false (listing_path args EmptyString) None ["message"; "error"].

Definition handle_get_promo_status (args : Args) : Prog string :=
  res ← fetch (plain_get (API_BASE +:+ "/api/agents/activate/promo-status") None);
  if negb (ok res) then Throw ("API error: " +:+ pretty (status res))
  else
    result ← lift (json res);
    lift (render get_promo_status result).

Definition handle_claim_free_pro_upgrade (args : Args) : Prog string :=
  keyed_call claim_free_pro_upgrade args
    "agent_key is required. Register and activate (BASIC tier) first."
    POST true "/api/agents/activate/promo-upgrade" None ["message"; "error"].

(** leave_review forwards [rating] and [comment] as they are. *)
Definition handle_leave_review (args : Args) : Prog string :=
  res ← fetch {|
    url := API_BASE +:+ "/api/jobs/" +:+ to_string (arg args "job_id") +:+ "/review";
    query := None;
    method := POST;
    headers := [content_type_json];
    body := json_body [ ("rating", arg args "rating");
                        ("comment", arg args "comment") ] |};
  if negb (ok res) then Throw (api_error res ["reason"; "error"])
  else
    review ← lift (json res);
    lift (render_args leave_review args review).

Definition handler (t : Tool) : Args -> Prog string :=
  match t with
  | search_humans => handle_search_humans
  | get_human => handle_get_human
  | register_agent => handle_register_agent
  | get_agent_profile => handle_get_agent_profile
  | verify_agent_domain => handle_verify_agent_domain
  | create_job_offer => handle_create_job_offer
  | get_job_status => handle_get_job_status
  | mark_job_paid => handle_mark_job_paid
  | check_humanity_status => handle_check_humanity_status
  | get_human_profile => handle_get_human_profile
  | request_activation_code => handle_request_activation_code
  | verify_social_activation => handle_verify_social_activation
  | get_activation_status => handle_get_activation_status
  | get_payment_activation => handle_get_payment_activation
  | verify_payment_activation => handle_verify_payment_activation
  | start_stream => handle_start_stream
  | record_stream_tick => handle_record_stream_tick
  | pause_stream => handle_pause_stream
  | resume_stream => handle_resume_stream
  | stop_stream => handle_stop_stream
  | send_job_message => handle_send_job_message
  | get_job_messages => handle_get_job_messages
  | create_listing => handle_create_listing
  | get_listings => handle_get_listings
  | get_listing => handle_get_listing
  | get_listing_applications => handle_get_listing_applications
  | make_listing_offer => handle_make_listing_offer
  | cancel_listing => handle_cancel_listing
  | get_promo_status => handle_get_promo_status
  | claim_free_pro_upgrade => handle_claim_free_pro_upgrade
  | leave_review => handle_leave_review
  end.

(** The CallTool request handler: the branch of the requested tool inside the
    try block, the unknown-tool result after the last branch, and the
    catch-all that turns a thrown error into an error result. *)
Definition callTool (name : string) (args : Args) : Prog ToolResult :=
  try_catch
    (match tool_of_name name with
     | Some t =>
         shown ← handler t args;
         mret {| text := shown; isError := false |}
     | None => mret {| text := "Unknown tool: " +:+ name; isError := true |}
     end)
    (fun message => mret {| text := "Error: " +:+ message; isError := true |}).

(** A process serving a sequence of tool calls against one collaborator.
    index.ts connects one server for the life of the process and http.ts
    builds a fresh one for each request; the handler closes over [API_BASE]
    alone, so either way nothing but the collaborator's state passes from one
    call to the next. *)
Fixpoint serve {St : Type} (respond : St -> Request -> FetchResult * St)
    (calls : list (string * Args)) (s : St) : list (Run ToolResult St) :=
  match calls with
  | [] => []
  | (name, args) :: rest =>
      let r := exec respond (callTool name args) s in
      r :: serve respond rest (final r)
  end.

End Server.

(** ** The collaborator's stream bookkeeping *)

Module StreamSpec.

Inductive StreamMethod : Type := SUPERFLUID | MICRO_TRANSFER.
Inductive SubStatus : Type := AWAITING_START | ACTIVE | PAUSED | STOPPED.
Inductive StreamError : Type :=
| INVALID_STATE
| FLOW_NOT_FOUND
| FLOW_STILL_ACTIVE
| NO_PENDING_TICK
| TICK_VERIFICATION_FAILED
| ALREADY_STOPPED.

(** Modelled from the spec: the StreamState the backend keeps for a STREAM job
    (section 3) is not part of the MCP server's sources, which only relay the
    stream operations.  Amounts are in the token's smallest unit; [rate] is
    the agreed per-interval rate, [pendingTick] tells whether a tick is open.
    The network, token and sender address play no part in the bookkeeping and
    are left out. *)
Record StreamState : Type := mkStreamState {
  streamMethod : StreamMethod;
  rate : N;
  maxTicks : option nat;
  tickCount : nat;
  totalPaid : N;
  subStatus : SubStatus;
  pendingTick : bool
}.

(** Modelled from the spec: the stream operations of section 4.3, which the
    backend implements outside these sources.  [RecordTick transfer] carries
    what the verification of the submitted transaction reference finds on
    chain: the amount transferred, or nothing.  The booleans of [Start],
    [Pause] and [Resume] are the outcome of verifying the SUPERFLUID flow
    (present and at the agreed rate, deleted, freshly created); they are not
    consulted for MICRO_TRANSFER. *)
Inductive Op : Type :=
| Start (flowVerified : bool)
| RecordTick (transfer : option N)
| Pause (flowDeleted : bool)
| Resume (flowVerified : bool)
| Stop.

Definition is_micro (st : StreamState) : bool :=
  match streamMethod st with
  | MICRO_TRANSFER => true
  | SUPERFLUID => false
  end.

Definition set_sub (st : StreamState) (sub : SubStatus) (pending : bool) : StreamState :=
  {| streamMethod := streamMethod st; rate := rate st; maxTicks := maxTicks st;
     tickCount := tickCount st; totalPaid := totalPaid st;
     subStatus := sub; pendingTick := pending |}.

(** The cap is reached once the tick count is no smaller than it. *)
Definition cap_reached (cap : option nat) (ticks : nat) : bool :=
  match cap with
  | Some m => (m <=? ticks)%nat
  | None => false
  end.

(** Modelled from the spec: Start, Record tick, Pause, Resume and Stop as
    section 4.3 words them (this code lives in the backend, outside these
    sources).  Start requires the stream not yet started and, for
    MICRO_TRANSFER, opens the first pending tick.  Record tick fails with
    NO_PENDING_TICK when no tick is open (a SUPERFLUID stream never has one)
    and with TICK_VERIFICATION_FAILED unless the transfer found matches the
    agreed rate; on success it increments the tick count, adds the amount to
    the cumulative total and opens the next tick, unless the cap is reached,
    in which case the stream stops.  Pause skips the pending tick, Resume
    opens a new one, Stop ends the stream and fails with ALREADY_STOPPED on a
    stopped one. *)
Definition step (st : StreamState) (op : Op) : StreamError + StreamState :=
  match op with
  | Start flowVerified =>
      match subStatus st with
      | AWAITING_START =>
          if is_micro st then inr (set_sub st ACTIVE true)
          else if flowVerified then inr (set_sub st ACTIVE false)
          else inl FLOW_NOT_FOUND
      | _ => inl INVALID_STATE
      end
  | RecordTick transfer =>
      if negb (is_micro st && pendingTick st) then inl NO_PENDING_TICK
      else
        match transfer with
        | Some amount =>
            if (amount =? rate st)%N then
              let ticks := S (tickCount st) in
              let stopped := cap_reached (maxTicks st) ticks in
              inr {| streamMethod := streamMethod st; rate := rate st;
                     maxTicks := maxTicks st;
                     tickCount := ticks;
                     totalPaid := (totalPaid st + amount)%N;
                     subStatus := if stopped then STOPPED else subStatus st;
                     pendingTick := negb stopped |}
            else inl TICK_VERIFICATION_FAILED
        | None => inl TICK_VERIFICATION_FAILED
        end
  | Pause flowDeleted =>
      match subStatus st with
      | ACTIVE =>
          if is_micro st then inr (set_sub st PAUSED false)
          else if flowDeleted then inr (set_sub st PAUSED false)
          else inl FLOW_STILL_ACTIVE
      | _ => inl INVALID_STATE
      end
  | Resume flowVerified =>
      match subStatus st with
      | PAUSED =>
          if is_micro st then inr (set_sub st ACTIVE true)
          else if flowVerified then inr (set_sub st ACTIVE false)
          else inl FLOW_NOT_FOUND
      | _ => inl INVALID_STATE
      end
  | Stop =>
      match subStatus st with
      | ACTIVE | PAUSED => inr (set_sub st STOPPED false)
      | STOPPED => inl ALREADY_STOPPED
      | AWAITING_START => inl INVALID_STATE
      end
  end.

(** A failed operation leaves the stream as it was. *)
Definition apply (st : StreamState) (op : Op) : StreamState :=
  match step st op with
  | inr st' => st'
  | inl _ => st
  end.

Definition run (st : StreamState) (ops : list Op) : StreamState :=
  fold_left apply ops st.

(** The amounts of the ticks that were verified along a run, oldest first. *)
Fixpoint verified_ticks (st : StreamState) (ops : list Op) : list N :=
  match ops with
  | [] => []
  | op :: rest =>
      match op, step st op with
      | RecordTick (Some amount), inr st' => amount :: verified_ticks st' rest
      | _, _ => verified_ticks (apply st op) rest
      end
  end.

Definition sum_amounts (l : list N) : N := fold_right N.add 0%N l.

(** Modelled from the spec: the stream of a MICRO_TRANSFER job as the backend
    creates it for an accepted job (sections 3 and 4.3): nothing paid, no
    tick recorded or open, waiting for start. *)
Definition new_stream (r : N) (cap : option nat) : StreamState :=
  {| streamMethod := MICRO_TRANSFER; rate := r; maxTicks := cap;
     tickCount := 0; totalPaid := 0%N;
     subStatus := AWAITING_START; pendingTick := false |}.

(** What every reachable state of a capped stream satisfies: a stopped stream
    has no tick open, the tick count is within the cap, and strictly below it
    while the stream is not stopped. *)
Definition within_cap (st : StreamState) : Prop :=
  (subStatus st = STOPPED -> pendingTick st = false)
  /\ forall m, maxTicks st = Some m ->
       (tickCount st <= m)%nat /\ (subStatus st <> STOPPED -> (tickCount st < m)%nat).

End StreamSpec.

(** Modelled from the spec: the backend's answer to the stream-tick request
    of the one MICRO_TRANSFER or SUPERFLUID stream [st] (the backend is not
    part of these sources).  [transfer_of] is the on-chain lookup of the
    submitted transaction reference; a verified tick is answered by
    [ok_response] and a refused one by [error_response].  The spec fixes
    neither the JSON of these answers nor their status codes, only that the
    first is a success and the second a structured error, so both are
    parameters. *)
Definition tick_backend (transfer_of : JValue -> option N)
    (ok_response : StreamSpec.StreamState -> Response)
    (error_response : StreamSpec.StreamError -> Response)
    (st : StreamSpec.StreamState) (req : Request) :
    FetchResult * StreamSpec.StreamState :=
  let txHash := match body req with
                | Some fields => own fields "txHash"
                | None => JUndefined
                end in
  match StreamSpec.step st (StreamSpec.RecordTick (transfer_of txHash)) with
  | inr st' => (Resolved (ok_response st'), st')
  | inl e => (Resolved (error_response e), st)
  end.

(** ** Vocabulary of the properties *)

(** Every request of the program satisfies [P]. *)
Inductive sends {A : Type} (P : Request -> Prop) : Prog A -> Prop :=
| sends_Ret a : sends P (Ret a)
| sends_Throw m : sends P (Throw m)
| sends_Fetch req k : P req -> (forall ans, sends P (k ans)) -> sends P (Fetch req k).

(** A failed answer: a rejected fetch or a response that is not ok. *)
Definition failed (ans : FetchResult) : bool :=
  match ans with
  | Resolved res => negb (ok res)
  | Rejected _ => true
  end.

(** Every fetch of the program is followed by a throw when it fails. *)
Inductive guarded {A : Type} : Prog A -> Prop :=
| guarded_Ret a : guarded (Ret a)
| guarded_Throw m : guarded (Throw m)
| guarded_Fetch req k :
    (forall ans, failed ans = true -> exists m, k ans = Throw m) ->
    (forall ans, guarded (k ans)) ->
    guarded (Fetch req k).

(** The program makes no request. *)
Definition silent {A : Type} (p : Prog A) : Prop :=
  match p with
  | Fetch _ _ => False
  | _ => True
  end.

(** The branches that test [agent_key] before they fetch. *)
Definition checks_key : list Tool :=
  [ create_job_offer; get_human_profile; request_activation_code;
    verify_social_activation; get_activation_status; get_payment_activation;
    verify_payment_activation; start_stream; record_stream_tick; pause_stream;
    resume_stream; stop_stream; send_job_message; get_job_messages;
    create_listing; get_listing_applications; make_listing_offer;
    cancel_listing; claim_free_pro_upgrade ].

(** The program makes exactly one request, [req]. *)
Definition single {A : Type} (req : Request) (p : Prog A) : Prop :=
  match p with
  | Fetch req' k => req' = req /\ forall ans, silent (k ans)
  | _ => False
  end.

(** The browse and read operations. *)
Definition browse_tools : list Tool :=
  [ search_humans; get_human; get_job_status; get_listings; get_listing;
    get_promo_status ].

(** The mutating operations whose branch attaches the credential, and the two
    that have no credential argument at all. *)
Definition keyed_mutators : list Tool :=
  [ create_job_offer; create_listing; get_human_profile; send_job_message;
    start_stream; record_stream_tick; pause_stream; resume_stream; stop_stream ].

Definition unkeyed_mutators : list Tool := [ mark_job_paid; leave_review ].

(** A collaborator that answers every request bearing the credential [key]
    with 403 and the code AGENT_PENDING, as the backend does for an agent that
    is not yet activated. *)
Definition rejects_as_pending {St : Type}
    (respond : St -> Request -> FetchResult * St) (key : string) : Prop :=
  forall s req,
    header (headers req) "X-Agent-Key" = Some key ->
    exists res,
      fst (respond s req) = Resolved res
      /\ status res = 403
      /\ exists fields, json res = Value (JObj fields)
                        /\ own fields "code" = JStr "AGENT_PENDING".

(** The fields of the collaborator's error object a branch reads when the
    response is not ok, in its order of preference; [None] for the branches
    that never read the body of a failed response. *)
Definition error_fields (t : Tool) : option (list string) :=
  match t with
  | search_humans | get_human | get_agent_profile | get_job_status
  | check_humanity_status | get_listings | get_listing | get_promo_status => None
  | verify_agent_domain | create_listing | make_listing_offer | cancel_listing
  | claim_free_pro_upgrade => Some ["message"; "error"]
  | mark_job_paid | leave_review => Some ["reason"; "error"]
  | start_stream | pause_stream | resume_stream => Some ["hint"; "error"]
  | _ => Some ["error"]
  end.

(** The activation guidance a branch substitutes for a 403 AGENT_PENDING. *)
Definition pending_guidance (t : Tool) : option string :=
  match t with
  | create_job_offer => Some create_job_offer_pending
  | get_human_profile => Some get_human_profile_pending
  | create_listing => Some create_listing_pending
  | _ => None
  end.

(** The message the unauthenticated reads make up themselves. *)
Definition local_message (t : Tool) (args : Args) (st : Z) : string :=
  match t with
  | get_human => "Human not found: " +:+ to_string (arg args "id")
  | check_humanity_status => "Human not found: " +:+ to_string (arg args "human_id")
  | get_agent_profile => "Agent not found: " +:+ to_string (arg args "agent_id")
  | get_job_status => "Job not found: " +:+ to_string (arg args "job_id")
  | get_listing =>
      if st =? 404 then "Listing not found: " +:+ to_string (arg args "listing_id")
      else "API error: " +:+ pretty st
  | _ => "API error: " +:+ pretty st
  end.

(** What a branch throws when its first response is not ok. *)
Definition failure_message (t : Tool) (args : Args) (res : Response) : string :=
  match error_fields t with
  | None => local_message t args (status res)
  | Some names =>
      match pending_guidance t with
      | Some guidance => pending_or res guidance names
      | None => api_error res names
      end
  end.

(** When the first answer is [ans], the program throws [m] on it. *)
Definition throws_on_first {A : Type} (p : Prog A) (ans : FetchResult) (m : string) : Prop :=
  match p with
  | Fetch _ k => k ans = Throw m
  | _ => True
  end.

(** The numeric filter and pagination arguments of search_humans and
    get_listings, and the query parameter each one sets. *)
Definition numeric_filters (t : Tool) : list (string * string) :=
  match t with
  | search_humans =>
      [ ("lat", "lat"); ("lng", "lng"); ("radius", "radius"); ("max_rate", "maxRate") ]
  | get_listings =>
      [ ("page", "page"); ("limit", "limit"); ("min_budget", "minBudget");
        ("max_budget", "maxBudget"); ("lat", "lat"); ("lng", "lng");
        ("radius", "radius") ]
  | _ => []
  end.

(** The credential of a request, if it carries one, is the [agent_key] of the
    arguments [args]. *)
Definition credential_from (args : Args) (req : Request) : Prop :=
  forall key, header (headers req) "X-Agent-Key" = Some key ->
              key = to_string (arg args "agent_key").

(** ** Sample calls and collaborators *)

Definition sample_base : string := "https://api.humanpages.ai".

(** A stand-in renderer: the name of the tool as the whole text. *)
Definition sample_render (t : Tool) (_ : JValue) : Res string := Value (tool_name t).
Definition sample_render_args (t : Tool) (_ : Args) (_ : JValue) : Res string :=
  Value (tool_name t).

Definition sample_call : string -> Args -> Prog ToolResult :=
  callTool sample_base sample_render sample_render_args.

Definition created (v : JValue) : FetchResult := Resolved {| status := 201; json := Value v |}.
Definition found (v : JValue) : FetchResult := Resolved {| status := 200; json := Value v |}.
Definition refused (st : Z) (v : JValue) : FetchResult := Resolved {| status := st; json := Value v |}.

(** A collaborator that turns away the credential [key] as that of a PENDING
    agent and accepts every other request. *)
Definition pending_gate (key : string) (_ : unit) (req : Request) : FetchResult * unit :=
  (match header (headers req) "X-Agent-Key" with
   | Some k =>
       if String.eqb k key
       then refused 403 (JObj [ ("error", JStr "Agent is pending activation");
                                ("code", JStr "AGENT_PENDING") ])
       else found (JObj [ ("id", JStr "job_1"); ("status", JStr "PENDING") ])
   | None => found (JObj [ ("id", JStr "job_1"); ("status", JStr "PAID") ])
   end, tt).

Definition offer_args : Args :=
  list_to_map [ ("agent_key", JStr "hp_pending"); ("agent_id", JStr "agent_1");
                ("human_id", JStr "human_1"); ("title", JStr "Photo shoot");
                ("description", JStr "Ten photos of the storefront");
                ("price_usdc", JNum 25) ].

Definition offer_args_without_key : Args := delete "agent_key" offer_args.

Definition paid_args : Args :=
  list_to_map [ ("agent_key", JStr "hp_pending"); ("job_id", JStr "job_1");
                ("payment_tx_hash", JStr "0xabc"); ("payment_network", JStr "base");
                ("payment_amount", JNum 25) ].

Definition review_args (rating : Z) : Args :=
  list_to_map [ ("job_id", JStr "job_1"); ("rating", JNum rating);
                ("comment", JStr "Great") ].

Definition search_args : Args :=
  list_to_map [ ("skill", JStr "photography"); ("max_rate", JNum 40) ].

(** ** The tools the server advertises *)

(** One entry of the ListTools answer: the name of the tool, the names of the
    properties of its input schema in the order they are written, and the
    [required] list.  The descriptions, types, enums and defaults of the
    schema are texts for the caller and are left out. *)
Record ToolDecl : Type := mkToolDecl {
  decl_name : string;
  decl_properties : list string;
  decl_required : list string
}.

(** The [tools] array of the ListTools handler, in its order. *)
Definition listTools : list ToolDecl :=
  [ {| decl_name := "search_humans";
       decl_properties := [ "skill"; "equipment"; "language"; "location"; "lat"; "lng";
                            "radius"; "max_rate"; "available_only"; "work_mode";
                            "verified" ];
       decl_required := [] |};
    {| decl_name := "get_human";
       decl_properties := [ "id" ];
       decl_required := [ "id" ] |};
    {| decl_name := "register_agent";
       decl_properties := [ "name"; "description"; "website_url"; "contact_email" ];
       decl_required := [ "name" ] |};
    {| decl_name := "get_agent_profile";
       decl_properties := [ "agent_id" ];
       decl_required := [ "agent_id" ] |};
    {| decl_name := "verify_agent_domain";
       decl_properties := [ "agent_id"; "agent_key"; "method" ];
       decl_required := [ "agent_id"; "agent_key"; "method" ] |};
    {| decl_name := "create_job_offer";
       decl_properties := [ "human_id"; "title"; "description"; "category"; "price_usdc";
                            "agent_id"; "agent_key"; "agent_name"; "agent_lat";
                            "agent_lng"; "callback_url"; "callback_secret";
                            "payment_mode"; "payment_timing"; "stream_method";
                            "stream_interval"; "stream_rate_usdc"; "stream_max_ticks" ];
       decl_required := [ "human_id"; "title"; "description"; "price_usdc"; "agent_id";
                          "agent_key" ] |};
    {| decl_name := "get_job_status";
       decl_properties := [ "job_id" ];
       decl_required := [ "job_id" ] |};
    {| decl_name := "mark_job_paid";
       decl_properties := [ "job_id"; "payment_tx_hash"; "payment_network";
                            "payment_amount" ];
       decl_required := [ "job_id"; "payment_tx_hash"; "payment_network";
                          "payment_amount" ] |};
    {| decl_name := "check_humanity_status";
       decl_properties := [ "human_id" ];
       decl_required := [ "human_id" ] |};
    {| decl_name := "leave_review";
       decl_properties := [ "job_id"; "rating"; "comment" ];
       decl_required := [ "job_id"; "rating" ] |};
    {| decl_name := "get_human_profile";
       decl_properties := [ "human_id"; "agent_key" ];
       decl_required := [ "human_id"; "agent_key" ] |};
    {| decl_name := "request_activation_code";
       decl_properties := [ "agent_key" ];
       decl_required := [ "agent_key" ] |};
    {| decl_name := "verify_social_activation";
       decl_properties := [ "agent_key"; "post_url" ];
       decl_required := [ "agent_key"; "post_url" ] |};
    {| decl_name := "get_activation_status";
       decl_properties := [ "agent_key" ];
       decl_required := [ "agent_key" ] |};
    {| decl_name := "get_payment_activation";
       decl_properties := [ "agent_key" ];
       decl_required := [ "agent_key" ] |};
    {| decl_name := "verify_payment_activation";
       decl_properties := [ "agent_key"; "tx_hash"; "network" ];
       decl_required := [ "agent_key"; "tx_hash"; "network" ] |};
    {| decl_name := "start_stream";
       decl_properties := [ "job_id"; "agent_key"; "sender_address"; "network"; "token" ];
       decl_required := [ "job_id"; "agent_key"; "sender_address"; "network" ] |};
    {| decl_name := "record_stream_tick";
       decl_properties := [ "job_id"; "agent_key"; "tx_hash" ];
       decl_required := [ "job_id"; "agent_key"; "tx_hash" ] |};
    {| decl_name := "pause_stream";
       decl_properties := [ "job_id"; "agent_key" ];
       decl_required := [ "job_id"; "agent_key" ] |};
    {| decl_name := "resume_stream";
       decl_properties := [ "job_id"; "agent_key"; "sender_address" ];
       decl_required := [ "job_id"; "agent_key" ] |};
    {| decl_name := "stop_stream";
       decl_properties := [ "job_id"; "agent_key" ];
       decl_required := [ "job_id"; "agent_key" ] |};
    {| decl_name := "send_job_message";
       decl_properties := [ "job_id"; "agent_key"; "content" ];
       decl_required := [ "job_id"; "agent_key"; "content" ] |};
    {| decl_name := "get_job_messages";
       decl_properties := [ "job_id"; "agent_key" ];
       decl_required := [ "job_id"; "agent_key" ] |};
    {| decl_name := "create_listing";
       decl_properties := [ "agent_key"; "title"; "description"; "budget_usdc"; "category";
                            "required_skills"; "required_equipment"; "location";
                            "location_lat"; "location_lng"; "radius_km"; "work_mode";
                            "expires_at"; "max_applicants"; "callback_url";
                            "callback_secret" ];
       decl_required := [ "agent_key"; "title"; "description"; "budget_usdc";
                          "expires_at" ] |};
    {| decl_name := "get_listings";
       decl_properties := [ "page"; "limit"; "skill"; "category"; "work_mode";
                            "min_budget"; "max_budget"; "lat"; "lng"; "radius" ];
       decl_required := [] |};
    {| decl_name := "get_listing";
       decl_properties := [ "listing_id" ];
       decl_required := [ "listing_id" ] |};
    {| decl_name := "get_listing_applications";
       decl_properties := [ "listing_id"; "agent_key" ];
       decl_required := [ "listing_id"; "agent_key" ] |};
    {| decl_name := "make_listing_offer";
       decl_properties := [ "listing_id"; "application_id"; "agent_key" ];
       decl_required := [ "listing_id"; "application_id"; "agent_key" ] |};
    {| decl_name := "cancel_listing";
       decl_properties := [ "listing_id"; "agent_key" ];
       decl_required := [ "listing_id"; "agent_key" ] |};
    {| decl_name := "get_promo_status";
       decl_properties := [];
       decl_required := [] |};
    {| decl_name := "claim_free_pro_upgrade";
       decl_properties := [ "agent_key" ];
       decl_required := [ "agent_key" ] |} ].

(** The declaration of a tool, by name. *)
Definition declaration (name : string) : option ToolDecl :=
  List.find (fun d => String.eqb name (decl_name d)) listTools.

(** ** The first server, index.ts *)

Module IndexTs.

(** The [nextStep] of get_job_status in index.ts, the single-file server
    that tools.ts grew out of: the switch on [job.status], without the
    streaming cases. *)
Definition nextStep (job : JValue) : Res string :=
  status ← get job "status";
  if is_str status "PENDING" then
    mret "Waiting for the human to accept or reject."
  else if is_str status "ACCEPTED" then
    callbackUrl ← get job "callbackUrl";
    priceUsdc ← get job "priceUsdc";
    mret (if truthy callbackUrl
          then "Human accepted! Contact info was sent to your webhook. Send $"
               +:+ to_string priceUsdc
               +:+ " USDC to their wallet, then use `mark_job_paid` with the transaction hash."
          else "Human accepted! Send $" +:+ to_string priceUsdc
               +:+ " USDC to their wallet, then use `mark_job_paid` with the transaction hash.")
  else if is_str status "REJECTED" then
    mret "The human rejected this offer. Consider adjusting your offer or finding another human."
  else if is_str status "PAID" then
    mret "Payment recorded. Work is in progress. The human will mark it complete when done."
  else if is_str status "COMPLETED" then
    review ← get job "review";
    if truthy review then
      rating ← get review "rating";
      mret ("Review submitted: " +:+ to_string rating +:+ "/5 stars")
    else mret "Job complete! You can now use `leave_review` to rate the human."
  else mret EmptyString.

Section Handlers.

Variable API_BASE : string.

(** The Markdown text of a created offer, computed from the arguments, the
    job and the human; it may throw. *)
Variable offer_text : Args -> JValue -> JValue -> Res string.

Definition getHuman (id : JValue) : Prog JValue :=
  res ← fetch (plain_get (API_BASE +:+ "/api/humans/" +:+ to_string id) None);
  if negb (ok res) then Throw ("Human not found: " +:+ to_string id)
  else lift (json res).

(** The create_job_offer branch of index.ts: no payment or stream terms in
    the body, and every refusal answered with the collaborator's error. *)
Definition handle_create_job_offer (args : Args) : Prog string :=
  let agentKey := arg args "agent_key" in
  if negb (truthy agentKey)
  then Throw "agent_key is required. Register first with register_agent to get an API key."
  else
    res ← fetch {|
      url := API_BASE +:+ "/api/jobs";
      query := None;
      method := POST;
      headers := [content_type_json; x_agent_key agentKey];
      body := json_body [ ("humanId", arg args "human_id");
                          ("agentId", arg args "agent_id");
                          ("agentName", arg args "agent_name");
                          ("title", arg args "title");
                          ("description", arg args "description");
                          ("category", arg args "category");
                          ("priceUsdc", arg args "price_usdc");
                          ("callbackUrl", arg args "callback_url");
                          ("callbackSecret", arg args "callback_secret") ] |};
    if negb (ok res) then Throw (api_error res ["error"])
    else
      job ← lift (json res);
      human ← getHuman (arg args "human_id");
      lift (offer_text args job human).

End Handlers.

End IndexTs.

(** ** The bundled first release, bundle/index.js *)

Module Bundle.

Section Handlers.

Variable API_BASE : string.

Definition getHuman (id : JValue) : Prog JValue :=
  res ← fetch (plain_get (API_BASE +:+ "/api/humans/" +:+ to_string id) None);
  if negb (ok res) then Throw ("Human not found: " +:+ to_string id)
  else lift (json res).

(** The text of record_job, as the first copy in the bundle writes it (the
    second copy ends with the contact line instead of the last sentence). *)
Definition job_recorded (args : Args) (human : JValue) : Res string :=
  name ← get human "name";
  mret ("Job recorded successfully!" +:+ nl +:+ nl
        +:+ "**Human:** " +:+ to_string name +:+ nl
        +:+ "**Task:** " +:+ to_string (arg args "task_description") +:+ nl
        +:+ "**Category:** "
        +:+ to_string (or_else (arg args "task_category") (JStr "general")) +:+ nl
        +:+ "**Price:** "
        +:+ to_string (or_else (arg args "agreed_price") (JStr "Not specified"))
        +:+ nl +:+ nl
        +:+ "Use get_human_profile with an ACTIVE agent key to get contact info for "
        +:+ to_string name +:+ ".").

(** The record_job branch: the human is read, the record is written to the
    process's own stderr (not modelled: it is no request), the text returned. *)
Definition handle_record_job (args : Args) : Prog string :=
  human ← getHuman (arg args "human_id");
  lift (job_recorded args human).

(** The branch inside the try block of the CallTool handler. *)
Definition call_record_job (args : Args) : Prog ToolResult :=
  try_catch
    (shown ← handle_record_job args;
     mret {| text := shown; isError := false |})
    (fun message => mret {| text := "Error: " +:+ message; isError := true |}).

End Handlers.

End Bundle.

(** ** The client of the integration tests, mcp.test.ts *)

Module TestClient.

(** [s.split('\n')]: the pieces between the line feeds, one more than there
    are line feeds. *)
Fixpoint split_lf (s : string) : list string :=
  match s with
  | EmptyString => [EmptyString]
  | String c rest =>
      if Ascii.eqb c (ascii_of_nat 10) then EmptyString :: split_lf rest
      else match split_lf rest with
           | piece :: pieces => String c piece :: pieces
           | [] => [String c EmptyString]
           end
  end.

(** The framing of the stdout data handler of createMcpClient:
    [buffer += chunk.toString(); const lines = buffer.split('\n');
    buffer = lines.pop()].  [chunk] is the decoded text of the chunk; the
    result is the complete lines handed to the loop and the new buffer. *)
Definition on_data (buffer chunk : string) : list string * string :=
  let lines := split_lf (buffer +:+ chunk) in
  (removelast lines, List.last lines EmptyString).

(** The handler over a sequence of chunks: the lines of all chunks in order,
    and the buffer left. *)
Fixpoint feed (buffer : string) (chunks : list string) : list string * string :=
  match chunks with
  | [] => ([], buffer)
  | chunk :: rest =>
      let '(lines, buffer') := on_data buffer chunk in
      let '(more, final_buffer) := feed buffer' rest in
      ((lines ++ more)%list, final_buffer)
  end.

(** The text has no line feed. *)
Fixpoint no_lf (s : string) : bool :=
  match s with
  | EmptyString => true
  | String c rest => negb (Ascii.eqb c (ascii_of_nat 10)) && no_lf rest
  end.

(** The lines again as text, each followed by its line feed. *)
Fixpoint unlines (lines : list string) : string :=
  match lines with
  | [] => EmptyString
  | line :: rest => line +:+ nl +:+ unlines rest
  end.

(** The chunks as one text. *)
Definition joined (chunks : list string) : string :=
  fold_right String.append EmptyString chunks.

End TestClient.

(** ** Vocabulary of the further properties *)

(** The arguments a branch of the handler reads. *)
Definition reads (t : Tool) : list string :=
  match t with
  | search_humans =>
      [ "skill"; "equipment"; "language"; "location"; "lat"; "lng"; "radius";
        "max_rate"; "available_only"; "work_mode"; "verified" ]
  | get_human => [ "id" ]
  | register_agent => [ "name"; "description"; "website_url"; "contact_email" ]
  | get_agent_profile => [ "agent_id" ]
  | verify_agent_domain => [ "agent_id"; "agent_key"; "method" ]
  | create_job_offer =>
      [ "agent_key"; "human_id"; "agent_id"; "agent_name"; "title"; "description";
        "category"; "price_usdc"; "payment_mode"; "payment_timing"; "stream_method";
        "stream_interval"; "stream_rate_usdc"; "stream_max_ticks"; "callback_url";
        "callback_secret" ]
  | get_job_status => [ "job_id" ]
  | mark_job_paid => [ "job_id"; "payment_tx_hash"; "payment_network"; "payment_amount" ]
  | check_humanity_status => [ "human_id" ]
  | get_human_profile => [ "agent_key"; "human_id" ]
  | request_activation_code | get_activation_status | get_payment_activation
  | claim_free_pro_upgrade => [ "agent_key" ]
  | verify_social_activation => [ "agent_key"; "post_url" ]
  | verify_payment_activation => [ "agent_key"; "tx_hash"; "network" ]
  | start_stream => [ "agent_key"; "job_id"; "sender_address"; "network"; "token" ]
  | record_stream_tick => [ "agent_key"; "job_id"; "tx_hash" ]
  | pause_stream | stop_stream | get_job_messages => [ "agent_key"; "job_id" ]
  | resume_stream => [ "agent_key"; "job_id"; "sender_address" ]
  | send_job_message => [ "agent_key"; "job_id"; "content" ]
  | create_listing =>
      [ "agent_key"; "title"; "description"; "budget_usdc"; "category";
        "required_skills"; "required_equipment"; "location"; "location_lat";
        "location_lng"; "radius_km"; "work_mode"; "expires_at"; "max_applicants";
        "callback_url"; "callback_secret" ]
  | get_listings =>
      [ "page"; "limit"; "skill"; "category"; "work_mode"; "min_budget"; "max_budget";
        "lat"; "lng"; "radius" ]
  | get_listing => [ "listing_id" ]
  | get_listing_applications | cancel_listing => [ "agent_key"; "listing_id" ]
  | make_listing_offer => [ "agent_key"; "listing_id"; "application_id" ]
  | get_promo_status => []
  | leave_review => [ "job_id"; "rating"; "comment" ]
  end.

(** The payment and stream terms of create_job_offer, the arguments tools.ts
    added to those of index.ts. *)
Definition stream_terms : list string :=
  [ "payment_mode"; "payment_timing"; "stream_method"; "stream_interval";
    "stream_rate_usdc"; "stream_max_ticks" ].

(** The filters of the two searches, in the order the code sets them: the
    argument and the query parameter it is sent as. *)
Definition query_params (t : Tool) : list (string * string) :=
  match t with
  | search_humans =>
      [ ("skill", "skill"); ("equipment", "equipment"); ("language", "language");
        ("location", "location"); ("lat", "lat"); ("lng", "lng"); ("radius", "radius");
        ("max_rate", "maxRate"); ("available_only", "available");
        ("work_mode", "workMode"); ("verified", "verified") ]
  | get_listings =>
      [ ("page", "page"); ("limit", "limit"); ("skill", "skill");
        ("category", "category"); ("work_mode", "workMode"); ("min_budget", "minBudget");
        ("max_budget", "maxBudget"); ("lat", "lat"); ("lng", "lng");
        ("radius", "radius") ]
  | _ => []
  end.

(** What one filter contributes to the query: nothing when the argument is
    falsy, its text otherwise; available_only contributes available=true
    unless it is exactly false. *)
Definition query_entry (args : Args) (entry : string * string) : list (string * string) :=
  if String.eqb (fst entry) "available_only"
  then (if not_false (arg args (fst entry)) then [(snd entry, "true")] else [])
  else (if truthy (arg args (fst entry))
        then [(snd entry, to_string (arg args (fst entry)))] else []).

(** The program makes at most [n] requests. *)
Fixpoint at_most (n : nat) {A : Type} (p : Prog A) {struct p} : Prop :=
  match p with
  | Fetch _ k =>
      match n with
      | O => False
      | S m => forall ans, at_most m (k ans)
      end
  | _ => True
  end.

(** The first request of a program, if it makes one. *)
Definition first_request {A : Type} (p : Prog A) : option Request :=
  match p with
  | Fetch req _ => Some req
  | _ => None
  end.

(** A request without its headers. *)
Definition unheaded (req : Request) : Request :=
  {| url := url req; query := query req; method := method req; headers := [];
     body := body req |}.

(** Two programs that make the same requests up to the headers, whatever the
    answers are. *)
Inductive alike_but_headers {A : Type} : Prog A -> Prog A -> Prop :=
| alike_leaf p q : silent p -> silent q -> alike_but_headers p q
| alike_Fetch req req' k k' :
    unheaded req = unheaded req' ->
    (forall ans, alike_but_headers (k ans) (k' ans)) ->
    alike_but_headers (Fetch req k) (Fetch req' k').

(** Every request after the first is a GET. *)
Definition then_reads {A : Type} (p : Prog A) : Prop :=
  match p with
  | Fetch _ k => forall ans, sends (fun req => method req = GET) (k ans)
  | _ => True
  end.

(** The value is neither undefined nor null. *)
Definition non_null (v : JValue) : Prop := v <> JUndefined /\ v <> JNull.

(** The program returns, with a value satisfying [Q], when every answer it
    gets is an ok response whose body is JSON and not null. *)
Fixpoint returns_on_ok {A : Type} (Q : A -> Prop) (p : Prog A) : Prop :=
  match p with
  | Ret a => Q a
  | Throw _ => False
  | Fetch _ k =>
      forall res v, ok res = true -> json res = Value v -> non_null v ->
                    returns_on_ok Q (k (Resolved res))
  end.

(** ** Further sample calls *)

Definition profile_args : Args := list_to_map [ ("id", JStr "human_1") ].

(** An ok response whose body is no JSON. *)
Definition not_json : FetchResult :=
  Resolved {| status := 200; json := Raise "Unexpected end of JSON input" |}.

(** A stand-in for the offer text of index.ts. *)
Definition sample_offer_text (_ : Args) (_ _ : JValue) : Res string :=
  Value "Job Offer Created".

(** A collaborator that answers every request 200 with an empty object. *)
Definition always_ok (_ : unit) (_ : Request) : FetchResult * unit := (found (JObj []), tt).

(** * Properties *)


(** ** Runs of handler programs *)

Section ExecFacts.

Context {St : Type} (respond : St -> Request -> FetchResult * St).

Lemma exec_bind {A B : Type} (p : Prog A) (f : A -> Prog B) (s : St) :
  exec respond (p ≫= f) s =
  let r := exec respond p s in
  match outcome r with
  | Value a =>
      let r' := exec respond (f a) (final r) in
      mkRun (outcome r') (sent r ++ sent r') (received r ++ received r') (final r')
  | Raise m => mkRun (Raise m) (sent r) (received r) (final r)
  end.
Proof.
  unfold mbind, prog_mbind.
  revert s. induction p as [a | m | req k IH]; intros s.
  - cbn. destruct (exec respond (f a) s); reflexivity.
  - reflexivity.
  - cbn. destruct (respond s req) as [ans s']. rewrite IH. cbn.
    destruct (outcome (exec respond (k ans) s')); reflexivity.
Qed.

(** A catch block that returns a value: the run is that of the body, and a
    thrown message becomes the value the block makes of it. *)
Lemma exec_try_catch {A : Type} (p : Prog A) (g : string -> A) (s : St) :
  exec respond (try_catch p (fun m => Ret (g m))) s =
  let r := exec respond p s in
  mkRun (Value (match outcome r with Value a => a | Raise m => g m end))
        (sent r) (received r) (final r).
Proof.
  revert s. induction p as [a | m | req k IH]; intros s; try reflexivity.
  cbn. destruct (respond s req) as [ans s']. rewrite IH. reflexivity.
Qed.

(** A fetch and what the handler does with the response. *)
Lemma exec_fetch_then {A : Type} (req : Request) (f : Response -> Prog A) (s : St) :
  exec respond (fetch req ≫= f) s =
  match respond s req with
  | (Resolved res, s') =>
      let r := exec respond (f res) s' in
      mkRun (outcome r) (req :: sent r) (Resolved res :: received r) (final r)
  | (Rejected m, s') => mkRun (Raise m) [req] [Rejected m] s'
  end.
Proof.
  unfold mbind, prog_mbind, fetch. cbn.
  destruct (respond s req) as [[res | m] s']; reflexivity.
Qed.

Lemma exec_sent_received {A : Type} (p : Prog A) (s : St) :
  length (sent (exec respond p s)) = length (received (exec respond p s)).
Proof.
  revert s. induction p as [a | m | req k IH]; intros s; try reflexivity.
  cbn. destruct (respond s req) as [ans s']. cbn. now rewrite IH.
Qed.

End ExecFacts.

(** The answers received determine the run: two collaborators that give the
    same answers to a program are indistinguishable to it. *)
Lemma exec_answers {A St1 St2 : Type}
    (respond1 : St1 -> Request -> FetchResult * St1)
    (respond2 : St2 -> Request -> FetchResult * St2)
    (p : Prog A) (s1 : St1) (s2 : St2) :
  received (exec respond1 p s1) = received (exec respond2 p s2) ->
  outcome (exec respond1 p s1) = outcome (exec respond2 p s2)
  /\ sent (exec respond1 p s1) = sent (exec respond2 p s2).
Proof.
  revert s1 s2. induction p as [a | m | req k IH]; intros s1 s2; cbn; auto.
  destruct (respond1 s1 req) as [a1 s1'], (respond2 s2 req) as [a2 s2']. cbn.
  intros Heq. injection Heq as -> Hrest.
  destruct (IH a2 s1' s2' Hrest) as [Ho Hs]. now rewrite Ho, Hs.
Qed.

(** ** Shapes of handler programs *)

Lemma silent_lift {A : Type} (r : Res A) : silent (lift r).
Proof. now destruct r. Qed.

Lemma silent_bind {A B : Type} (p : Prog A) (f : A -> Prog B) :
  silent p -> (forall a, silent (f a)) -> silent (p ≫= f).
Proof. destruct p; cbn; auto. Qed.

Lemma silent_sends {A : Type} (P : Request -> Prop) (p : Prog A) : silent p -> sends P p.
Proof. destruct p; cbn; intros H; [constructor | constructor | destruct H]. Qed.

Lemma silent_guarded {A : Type} (p : Prog A) : silent p -> guarded p.
Proof. destruct p; cbn; intros H; [constructor | constructor | destruct H]. Qed.

Lemma silent_exec {A St : Type} (respond : St -> Request -> FetchResult * St)
    (p : Prog A) (s : St) :
  silent p -> sent (exec respond p s) = [] /\ final (exec respond p s) = s.
Proof. destruct p; cbn; intros H; [auto | auto | destruct H]. Qed.

Lemma sends_bind {A B : Type} (P : Request -> Prop) (p : Prog A) (f : A -> Prog B) :
  sends P p -> (forall a, sends P (f a)) -> sends P (p ≫= f).
Proof.
  unfold mbind, prog_mbind.
  intros Hp Hf. induction Hp as [a | m | req k HP Hk IH]; cbn.
  - apply Hf.
  - constructor.
  - constructor; auto.
Qed.

Lemma sends_fetch (P : Request -> Prop) (req : Request) : P req -> sends P (fetch req).
Proof. intros H. constructor; [exact H | intros [res | m]; constructor]. Qed.

Lemma sends_try_catch {A : Type} (P : Request -> Prop) (p : Prog A) (h : string -> Prog A) :
  sends P p -> (forall m, sends P (h m)) -> sends P (try_catch p h).
Proof.
  intros Hp Hh. induction Hp as [a | m | req k HP Hk IH]; cbn.
  - constructor.
  - apply Hh.
  - constructor; auto.
Qed.

Lemma sends_exec {A St : Type} (P : Request -> Prop)
    (respond : St -> Request -> FetchResult * St) (p : Prog A) (s : St) :
  sends P p -> Forall P (sent (exec respond p s)).
Proof.
  intros Hp. revert s. induction Hp as [a | m | req k HP Hk IH]; intros s; cbn.
  - constructor.
  - constructor.
  - destruct (respond s req) as [ans s']. cbn. constructor; auto.
Qed.

(** A guarded fetch followed by the non-ok test of the source. *)
Lemma guarded_fetch_then {A : Type} (req : Request) (f : Response -> Prog A) :
  (forall res, ok res = false -> exists m, f res = Throw m) ->
  (forall res, guarded (f res)) ->
  guarded (fetch req ≫= f).
Proof.
  intros Hfail Hg. unfold mbind, prog_mbind, fetch. cbn.
  constructor.
  - intros [res | m] Hf; cbn in Hf.
    + apply negb_true_iff in Hf. apply (Hfail res Hf).
    + now exists m.
  - intros [res | m]; [apply Hg | constructor].
Qed.

Lemma guarded_bind {A B : Type} (p : Prog A) (f : A -> Prog B) :
  guarded p -> (forall a, guarded (f a)) -> guarded (p ≫= f).
Proof.
  unfold mbind, prog_mbind.
  intros Hp Hf. induction Hp as [a | m | req k Hfail Hk IH]; cbn.
  - apply Hf.
  - constructor.
  - constructor; auto.
    intros ans Ha. destruct (Hfail ans Ha) as [m ->]. now exists m.
Qed.

Lemma guarded_exec {A St : Type} (respond : St -> Request -> FetchResult * St)
    (p : Prog A) (s : St) :
  guarded p ->
  Exists (fun ans => failed ans = true) (received (exec respond p s)) ->
  exists m, outcome (exec respond p s) = Raise m.
Proof.
  intros Hp. revert s. induction Hp as [a | m | req k Hfail Hk IH]; intros s; cbn.
  - intros H. inversion H.
  - intros H. inversion H.
  - destruct (respond s req) as [ans s']. cbn. intros H.
    inversion H as [x l Hans | x l Hrest]; subst.
    + destruct (Hfail ans Hans) as [m Hm]. rewrite Hm. now exists m.
    + apply (IH ans s' Hrest).
Qed.

Lemma guarded_lift {A : Type} (r : Res A) : guarded (lift r).
Proof. apply silent_guarded, silent_lift. Qed.

Lemma tool_of_name_tool_name (t : Tool) : tool_of_name (tool_name t) = Some t.
Proof. destruct t; reflexivity. Qed.

Lemma tool_of_name_Some (name : string) (t : Tool) :
  tool_of_name name = Some t -> name = tool_name t.
Proof.
  unfold tool_of_name. intros H. apply find_some in H as [_ H].
  now apply String.eqb_eq in H.
Qed.

(** Closes [guarded] goals over the combinators the handlers are written
    with. *)
Ltac guarded_tac :=
  repeat match goal with
  | |- guarded (if ?b then _ else _) => destruct b eqn:?
  | |- guarded (Throw _) => constructor
  | |- guarded (Ret _) => constructor
  | |- guarded (mret _) => constructor
  | |- guarded (lift _) => apply guarded_lift
  | |- guarded (fetch _ ≫= _) =>
      apply guarded_fetch_then;
      [ let H := fresh "Hok" in
        intros ? H; rewrite H; cbn;
        try match goal with |- context [if ?c then _ else _] => destruct c end;
        eexists; reflexivity
      | intros ? ]
  | |- guarded (_ ≫= _) => apply guarded_bind; [ | intros ? ]
  end.

(** ** The handler of createServer *)

Section HandlerFacts.

Variable API_BASE : string.
Variable render : Tool -> JValue -> Res string.
Variable render_args : Tool -> Args -> JValue -> Res string.

Local Abbreviation handler_ := (handler API_BASE render render_args).
Local Abbreviation call := (callTool API_BASE render render_args).

Lemma handler_guarded (t : Tool) (args : Args) : guarded (handler_ t args).
Proof.
  destruct t; cbn [handler];
    unfold handle_search_humans, handle_get_human, handle_register_agent,
      handle_get_agent_profile, handle_verify_agent_domain, handle_create_job_offer,
      handle_get_job_status, handle_mark_job_paid, handle_check_humanity_status,
      handle_get_human_profile, handle_request_activation_code,
      handle_verify_social_activation, handle_get_activation_status,
      handle_get_payment_activation, handle_verify_payment_activation,
      handle_start_stream, handle_record_stream_tick, handle_pause_stream,
      handle_resume_stream, handle_stop_stream, handle_send_job_message,
      handle_get_job_messages, handle_create_listing, handle_get_listings,
      handle_get_listing, handle_get_listing_applications, handle_make_listing_offer,
      handle_cancel_listing, handle_get_promo_status, handle_claim_free_pro_upgrade,
      handle_leave_review, keyed_call, searchHumans, getHuman;
    guarded_tac.
Qed.

Lemma missing_key_throws (t : Tool) (args : Args) :
  In t checks_key ->
  truthy (arg args "agent_key") = false ->
  exists msg, handler_ t args = Throw msg
              /\ includes msg "agent_key is required" = true.
Proof.
  intros Hin Hkey. cbn in Hin.
  repeat (destruct Hin as [<- | Hin];
          [ cbn [handler];
            unfold handle_create_job_offer, handle_get_human_profile,
              handle_request_activation_code, handle_verify_social_activation,
              handle_get_activation_status, handle_get_payment_activation,
              handle_verify_payment_activation, handle_start_stream,
              handle_record_stream_tick, handle_pause_stream, handle_resume_stream,
              handle_stop_stream, handle_send_job_message, handle_get_job_messages,
              handle_create_listing, handle_get_listing_applications,
              handle_make_listing_offer, handle_cancel_listing,
              handle_claim_free_pro_upgrade, keyed_call;
            rewrite Hkey; cbn [negb]; eexists; split; reflexivity
          | ]).
  destruct Hin.
Qed.

(** The run of a tool call in terms of the run of the selected branch. *)
Lemma exec_call {St : Type} (respond : St -> Request -> FetchResult * St)
    (t : Tool) (args : Args) (s : St) :
  exec respond (call (tool_name t) args) s =
  let r := exec respond (handler_ t args) s in
  mkRun (Value (match outcome r with
                | Value shown => {| text := shown; isError := false |}
                | Raise m => {| text := "Error: " +:+ m; isError := true |}
                end))
        (sent r) (received r) (final r).
Proof.
  unfold callTool. rewrite tool_of_name_tool_name.
  change (λ message : string, mret {| text := "Error: " +:+ message; isError := true |})
    with (λ message : string, Ret {| text := "Error: " +:+ message; isError := true |}).
  rewrite exec_try_catch, exec_bind. cbn zeta.
  destruct (exec respond (handler_ t args) s) as [[shown | m] sn rc fn]; cbn;
    rewrite ?app_nil_r; reflexivity.
Qed.

Lemma exec_call_unknown {St : Type} (respond : St -> Request -> FetchResult * St)
    (name : string) (args : Args) (s : St) :
  tool_of_name name = None ->
  exec respond (call name args) s =
  mkRun (Value {| text := "Unknown tool: " +:+ name; isError := true |}) [] [] s.
Proof. unfold callTool. intros ->. reflexivity. Qed.

(** C2. Every failure of a tool call is a terminal error result: the handler
    always returns a result (no exception leaves it); an unknown tool name
    yields the error result "Unknown tool: name" without any request; a
    missing or empty agent_key on a branch that checks it yields an error
    result without any request; a rejected fetch or a non-ok response
    anywhere in the run yields an error result; an error result carries a
    message ("Error: ..." or the unknown-tool text); and the process serves
    the next call from the collaborator state this one left, which a locally
    detected failure leaves untouched. *)
Theorem C2_failures_are_error_results :
  forall (St : Type) (respond : St -> Request -> FetchResult * St)
         (name : string) (args : Args) (s : St),
    let r := exec respond (call name args) s in
    exists res : ToolResult,
      outcome r = Value res
      /\ (tool_of_name name = None ->
          res = {| text := "Unknown tool: " +:+ name; isError := true |}
          /\ sent r = [] /\ final r = s)
      /\ (forall t, tool_of_name name = Some t -> In t checks_key ->
          truthy (arg args "agent_key") = false ->
          isError res = true /\ sent r = [] /\ final r = s
          /\ includes (text res) "agent_key is required" = true)
      /\ (Exists (fun ans => failed ans = true) (received r) -> isError res = true)
      /\ (isError res = true ->
          (exists m, text res = "Error: " +:+ m) \/ text res = "Unknown tool: " +:+ name)
      /\ (forall rest,
          serve API_BASE render render_args respond ((name, args) :: rest) s
          = r :: serve API_BASE render render_args respond rest (final r)).
Proof.
  intros St respond name args s r.
  destruct (tool_of_name name) as [t |] eqn:Hname.
  - apply tool_of_name_Some in Hname as Heq. subst name.
    subst r. rewrite exec_call. cbn zeta.
    eexists. split; [reflexivity |]. cbn [outcome sent received final].
    split; [discriminate |].
    split; [| split; [| split]].
    + intros t' Ht' Hin Hkey. injection Ht' as <-.
      destruct (missing_key_throws t args Hin Hkey) as [msg [Hthrow Hmsg]].
      rewrite Hthrow. cbn [exec outcome sent final text isError].
      repeat split.
      revert Hmsg. generalize "agent_key is required". intros needle Hmsg.
      unfold append. cbn [includes]. cbn. rewrite Hmsg.
      now rewrite !orb_true_r.
    + intros Hex.
      destruct (guarded_exec respond _ s (handler_guarded t args) Hex) as [m ->].
      reflexivity.
    + destruct (outcome (exec respond (handler_ t args) s)); cbn; [discriminate |].
      intros _. left. now eexists.
    + intros rest. cbn [serve]. rewrite exec_call. reflexivity.
  - subst r. rewrite (exec_call_unknown respond name args s Hname).
    eexists. split; [reflexivity |]. cbn [outcome sent received final].
    split; [auto |].
    split; [discriminate |].
    split; [intros H; inversion H |].
    split; [intros _; now right |].
    intros rest. cbn [serve]. rewrite (exec_call_unknown respond name args s Hname).
    reflexivity.
Qed.

Lemma single_fetch_then {A : Type} (req : Request) (f : Response -> Prog A) :
  (forall res, silent (f res)) -> single req (fetch req ≫= f).
Proof.
  intros Hf. unfold mbind, prog_mbind, fetch. cbn. split; [reflexivity |].
  intros [res | m]; cbn; [apply Hf | exact I].
Qed.

Lemma single_bind {A B : Type} (req : Request) (p : Prog A) (f : A -> Prog B) :
  single req p -> (forall a, silent (f a)) -> single req (p ≫= f).
Proof.
  destruct p as [a | m | req' k]; cbn; try tauto.
  intros [-> Hk] Hf. split; [reflexivity |].
  intros ans. apply (silent_bind (k ans) f); auto.
Qed.

Lemma single_exec {A St : Type} (respond : St -> Request -> FetchResult * St)
    (req : Request) (p : Prog A) (s : St) :
  single req p -> sent (exec respond p s) = [req].
Proof.
  destruct p as [a | m | req' k]; cbn; try tauto.
  intros [-> Hk]. destruct (respond s req) as [ans s']. cbn.
  now destruct (silent_exec respond (k ans) s' (Hk ans)) as [-> _].
Qed.

(** Closes [silent] goals over the combinators the handlers are written
    with. *)
Ltac silent_tac :=
  repeat match goal with
  | |- silent (if ?b then _ else _) => destruct b
  | |- silent (Throw _) => exact I
  | |- silent (Ret _) => exact I
  | |- silent (mret _) => exact I
  | |- silent (lift _) => apply silent_lift
  | |- silent (_ ≫= _) => apply silent_bind; [ | intros ? ]
  end.


Lemma exec_Fetch {A St : Type} (respond : St -> Request -> FetchResult * St)
    (req : Request) (k : FetchResult -> Prog A) (s : St) :
  exists rest_sent rest_received,
    sent (exec respond (Fetch req k) s) = req :: rest_sent
    /\ received (exec respond (Fetch req k) s) = fst (respond s req) :: rest_received.
Proof. cbn. destruct (respond s req) as [ans s']. cbn. eauto. Qed.

Lemma keyed_first_request (t : Tool) (args : Args) :
  In t keyed_mutators ->
  truthy (arg args "agent_key") = true ->
  exists req k,
    handler_ t args = Fetch req k
    /\ header (headers req) "X-Agent-Key" = Some (to_string (arg args "agent_key")).
Proof.
  intros Hin Hkey. cbn in Hin.
  repeat (destruct Hin as [<- | Hin];
          [ cbn [handler];
            unfold handle_create_job_offer, handle_create_listing,
              handle_get_human_profile, handle_send_job_message, handle_start_stream,
              handle_record_stream_tick, handle_pause_stream, handle_resume_stream,
              handle_stop_stream, keyed_call;
            rewrite Hkey; cbn [negb];
            unfold fetch, mbind, prog_mbind; cbn [prog_bind];
            do 2 eexists; split; reflexivity
          | ]).
  destruct Hin.
Qed.

Lemma unkeyed_single_request (t : Tool) (args : Args) :
  In t unkeyed_mutators ->
  exists req, single req (handler_ t args)
              /\ headers req = [content_type_json].
Proof.
  intros Hin. cbn in Hin.
  repeat (destruct Hin as [<- | Hin];
          [ cbn [handler]; unfold handle_mark_job_paid, handle_leave_review;
            eexists; split;
            [ apply single_fetch_then; intros ?; silent_tac | reflexivity ]
          | ]).
  destruct Hin.
Qed.

(** C1 (amended). create_job_offer, create_listing, get_human_profile,
    send_job_message and the five stream controls attach the caller-supplied
    agent_key as the X-Agent-Key header of the request they send, so that
    against a collaborator that rejects a PENDING agent's credential with
    403 AGENT_PENDING the call fails (an error result) whatever the other
    arguments are; mark_job_paid and leave_review send their one request
    without any X-Agent-Key header. *)
Theorem C1_credential_attached_where_declared :
  forall (St : Type) (respond : St -> Request -> FetchResult * St)
         (t : Tool) (args : Args) (s : St),
    let key := arg args "agent_key" in
    let r := exec respond (call (tool_name t) args) s in
    (In t keyed_mutators ->
       (truthy key = true ->
          exists req rest,
            sent r = req :: rest
            /\ header (headers req) "X-Agent-Key" = Some (to_string key))
       /\ (rejects_as_pending respond (to_string key) ->
           exists res, outcome r = Value res /\ isError res = true))
    /\ (In t unkeyed_mutators ->
        exists req,
          sent r = [req] /\ header (headers req) "X-Agent-Key" = None).
Proof.
  intros St respond t args s key r. subst r. rewrite exec_call.
  cbn [outcome sent]. split.
  - intros Hin. split.
    + intros Hkey.
      destruct (keyed_first_request t args Hin Hkey) as (req & k & Hp & Hh).
      rewrite Hp. destruct (exec_Fetch respond req k s) as (rs & rr & Hs & _).
      rewrite Hs. eauto.
    + intros Hrej. destruct (truthy key) eqn:Hkey.
      * destruct (keyed_first_request t args Hin Hkey) as (req & k & Hp & Hh).
        destruct (Hrej s req Hh) as (res & Hans & Hst & _).
        assert (Hex : Exists (fun ans => failed ans = true)
                        (received (exec respond (handler_ t args) s))).
        { rewrite Hp. destruct (exec_Fetch respond req k s) as (rs & rr & _ & Hr).
          rewrite Hr, Hans. constructor. cbn. unfold ok. rewrite Hst. reflexivity. }
        destruct (guarded_exec respond _ s (handler_guarded t args) Hex) as [m ->].
        eexists. split; reflexivity.
      * assert (Hck : In t checks_key).
        { cbn in Hin. cbn. intuition. }
        destruct (missing_key_throws t args Hck Hkey) as (msg & -> & _).
        eexists. split; reflexivity.
  - intros Hin. destruct (unkeyed_single_request t args Hin) as (req & Hs & Hh).
    exists req. rewrite (single_exec respond _ _ s Hs). rewrite Hh. auto.
Qed.

Lemma includes_app_r (a b needle : string) :
  includes b needle = true -> includes (a +:+ b) needle = true.
Proof.
  intros H. induction a as [| c a IH]; [exact H |].
  change (String c a +:+ b) with (String c (a +:+ b)).
  cbn [includes]. rewrite IH. apply orb_true_r.
Qed.

(** The text of get_job_status when the collaborator answers with a job. *)
Lemma get_job_status_text {St : Type} (respond : St -> Request -> FetchResult * St)
    (args : Args) (s : St) (res : Response) (job : JValue) (step summary : string) :
  fst (respond s (plain_get (API_BASE +:+ "/api/jobs/" +:+ to_string (arg args "job_id")) None))
    = Resolved res ->
  ok res = true ->
  json res = Value job ->
  nextStep job = Value step ->
  render get_job_status job = Value summary ->
  outcome (exec respond (call "get_job_status" args) s)
  = Value {| text := summary +:+ nl +:+ "**Next Step:** " +:+ step; isError := false |}.
Proof.
  intros Hans Hok Hjson Hstep Hsum.
  rewrite (exec_call respond get_job_status). cbn [handler outcome].
  unfold handle_get_job_status, fetch, mbind, prog_mbind. cbn [prog_bind exec].
  destruct (respond s _) as [ans s']. cbn in Hans. subst ans.
  cbn [prog_bind]. rewrite Hok. cbn [negb]. rewrite Hjson. cbn [lift prog_bind].
  rewrite Hstep. cbn [lift prog_bind]. rewrite Hsum. reflexivity.
Qed.

(** C3. The next-step guidance of get_job_status follows the streaming
    sub-protocol.  For a job whose paymentMode is STREAM: in ACCEPTED the
    guidance names start_stream and never mark_job_paid, with the
    create-a-Superfluid-flow-first wording for SUPERFLUID and the
    lock-the-network wording for MICRO_TRANSFER; in STREAMING it names
    record_stream_tick when the stream summary's method is MICRO_TRANSFER and
    pause_stream and stop_stream when it is SUPERFLUID; in PAUSED it names
    resume_stream and stop_stream.  For a job that is not a STREAM job, in
    ACCEPTED it names mark_job_paid.  The guidance is the last line of the
    text the tool returns. *)
Theorem C3_next_step_follows_stream_protocol :
  forall (fields : list (string * JValue)),
    let job := JObj fields in
    let status := own fields "status" in
    let stream := is_str (own fields "paymentMode") "STREAM" in
    let summary_method := get_opt (own fields "streamSummary") "method" in
    (stream = true -> status = JStr "ACCEPTED" ->
       exists step, nextStep job = Value step
         /\ includes step "start_stream" = true
         /\ includes step "mark_job_paid" = false
         /\ (own fields "streamMethod" = JStr "SUPERFLUID" ->
             includes step "Create a Superfluid flow to their wallet, then use `start_stream`" = true)
         /\ (own fields "streamMethod" = JStr "MICRO_TRANSFER" ->
             includes step "Use `start_stream` to lock the network/token" = true
             /\ includes step "Superfluid" = false))
    /\ (stream = true -> status = JStr "STREAMING" ->
        exists step, nextStep job = Value step
          /\ (summary_method = JStr "MICRO_TRANSFER" ->
              includes step "record_stream_tick" = true)
          /\ (summary_method = JStr "SUPERFLUID" ->
              includes step "pause_stream" = true /\ includes step "stop_stream" = true))
    /\ (stream = true -> status = JStr "PAUSED" ->
        exists step, nextStep job = Value step
          /\ includes step "resume_stream" = true
          /\ includes step "stop_stream" = true)
    /\ (stream = false -> status = JStr "ACCEPTED" ->
        exists step, nextStep job = Value step
          /\ includes step "mark_job_paid" = true)
    /\ (forall (St : Type) (respond : St -> Request -> FetchResult * St)
               (args : Args) (s : St) (res : Response) (step summary : string),
          fst (respond s (plain_get (API_BASE +:+ "/api/jobs/"
                                     +:+ to_string (arg args "job_id")) None))
            = Resolved res ->
          ok res = true -> json res = Value job ->
          nextStep job = Value step ->
          render get_job_status job = Value summary ->
          outcome (exec respond (call "get_job_status" args) s)
          = Value {| text := summary +:+ nl +:+ "**Next Step:** " +:+ step;
                     isError := false |}).
Proof.
  intros fields job status stream summary_method.
  unfold nextStep. subst job. cbn [get mbind res_bind mret res_ret].
  fold status. fold stream. fold summary_method.
  repeat split.
  - intros -> ->. cbn [is_str String.eqb Ascii.eqb Bool.eqb].
    destruct (is_str (own fields "streamMethod") "SUPERFLUID") eqn:Hm.
    + eexists. split; [reflexivity |].
      split; [vm_compute; reflexivity |]. split; [vm_compute; reflexivity |].
      split; [intros _; vm_compute; reflexivity |].
      intros H. rewrite H in Hm. discriminate.
    + eexists. split; [reflexivity |].
      split; [vm_compute; reflexivity |]. split; [vm_compute; reflexivity |].
      split; [intros H; rewrite H in Hm; discriminate |].
      intros _. split; vm_compute; reflexivity.
  - intros _ ->. cbn [is_str String.eqb Ascii.eqb Bool.eqb].
    eexists. split; [reflexivity |]. split.
    + intros ->. cbn [is_str String.eqb Ascii.eqb Bool.eqb].
      do 2 apply includes_app_r. vm_compute. reflexivity.
    + intros ->. cbn [is_str String.eqb Ascii.eqb Bool.eqb].
      split; do 2 apply includes_app_r; vm_compute; reflexivity.
  - intros _ ->. cbn [is_str String.eqb Ascii.eqb Bool.eqb].
    eexists. split; [reflexivity |]. split; vm_compute; reflexivity.
  - intros -> ->. cbn [is_str String.eqb Ascii.eqb Bool.eqb].
    destruct (truthy (own fields "callbackUrl")); eexists; (split; [reflexivity |]);
      do 2 apply includes_app_r; vm_compute; reflexivity.
  - intros St respond args s res step summary. apply get_job_status_text.
Qed.

Lemma throws_on_first_exec {A St : Type} (respond : St -> Request -> FetchResult * St)
    (p : Prog A) (s : St) (ans : FetchResult) (m : string) (rest : list FetchResult) :
  throws_on_first p ans m ->
  received (exec respond p s) = ans :: rest ->
  outcome (exec respond p s) = Raise m /\ rest = [] /\ length (sent (exec respond p s)) = 1%nat.
Proof.
  destruct p as [a | m' | req k]; cbn; try discriminate.
  destruct (respond s req) as [ans' s']. cbn. intros Hk Heq.
  injection Heq as -> Hrest. rewrite Hk in *. cbn in *. auto.
Qed.

Lemma handler_first_failure (t : Tool) (args : Args) (res : Response) :
  ok res = false ->
  throws_on_first (handler_ t args) (Resolved res) (failure_message t args res).
Proof.
  intros Hok.
  destruct t; cbn [handler failure_message error_fields pending_guidance local_message];
    unfold failure_message, handle_search_humans, handle_get_human, handle_register_agent,
      handle_get_agent_profile, handle_verify_agent_domain, handle_create_job_offer,
      handle_get_job_status, handle_mark_job_paid, handle_check_humanity_status,
      handle_get_human_profile, handle_request_activation_code,
      handle_verify_social_activation, handle_get_activation_status,
      handle_get_payment_activation, handle_verify_payment_activation,
      handle_start_stream, handle_record_stream_tick, handle_pause_stream,
      handle_resume_stream, handle_stop_stream, handle_send_job_message,
      handle_get_job_messages, handle_create_listing, handle_get_listings,
      handle_get_listing, handle_get_listing_applications, handle_make_listing_offer,
      handle_cancel_listing, handle_get_promo_status, handle_claim_free_pro_upgrade,
      handle_leave_review, keyed_call, searchHumans, getHuman, fetch, mbind, prog_mbind;
    cbn [error_fields pending_guidance local_message];
    try (destruct (truthy (arg args "agent_key")); cbn [negb]; [ | exact I ]);
    cbn [prog_bind throws_on_first]; rewrite Hok; cbn [negb prog_bind];
    try (destruct (status res =? 404)); reflexivity.
Qed.

Lemma pick_first_truthy (fields : list (string * JValue)) (names : list string)
    (fallback : string) :
  pick (JObj fields) names fallback
  = Value (match List.find (fun n => truthy (own fields n)) names with
           | Some n => to_string (own fields n)
           | None => fallback
           end).
Proof.
  induction names as [| n names IH]; [reflexivity |].
  cbn [pick get mbind res_bind List.find].
  destruct (truthy (own fields n)); [reflexivity | exact IH].
Qed.

(** C4 (amended). (a) On every branch that checks the credential (all the
    credentialed operations but verify_agent_domain, about which nothing is
    said here) a missing or empty agent_key is reported by this layer as
    "agent_key is required..." and no request is made.  (b) When the
    collaborator answers the request with a non-ok response carrying a JSON
    error object, a branch that reads it returns "Error: " followed by the
    collaborator's own text, the first non-empty of the fields the branch
    prefers (hint, message or reason, then error), and "API error: status" if
    none is set; (c) except that create_job_offer, get_human_profile and
    create_listing answer a 403 whose code is AGENT_PENDING with this layer's
    activation guidance; and (d) the unauthenticated reads report this layer's
    own not-found or API-error message whatever the body says. *)
Theorem C4_local_and_relayed_errors :
  forall (St : Type) (respond : St -> Request -> FetchResult * St)
         (t : Tool) (args : Args) (s : St),
    let r := exec respond (call (tool_name t) args) s in
    (In t checks_key -> truthy (arg args "agent_key") = false ->
       exists msg,
         outcome r = Value {| text := "Error: " +:+ msg; isError := true |}
         /\ includes msg "agent_key is required" = true
         /\ sent r = [])
    /\ (forall names res fields rest,
          error_fields t = Some names ->
          received r = Resolved res :: rest ->
          ok res = false ->
          json res = Value (JObj fields) ->
          pending_guidance t = None \/ status res <> 403
          \/ is_str (own fields "code") "AGENT_PENDING" = false ->
          outcome r
          = Value {| text := "Error: "
                       +:+ match List.find (fun n => truthy (own fields n)) names with
                           | Some n => to_string (own fields n)
                           | None => "API error: " +:+ pretty (status res)
                           end;
                     isError := true |})
    /\ (forall guidance res fields rest,
          pending_guidance t = Some guidance ->
          received r = Resolved res :: rest ->
          status res = 403 ->
          json res = Value (JObj fields) ->
          own fields "code" = JStr "AGENT_PENDING" ->
          outcome r = Value {| text := "Error: " +:+ guidance; isError := true |})
    /\ (forall res rest,
          error_fields t = None ->
          received r = Resolved res :: rest ->
          ok res = false ->
          outcome r
          = Value {| text := "Error: " +:+ local_message t args (status res);
                     isError := true |}).
Proof.
  intros St respond t args s r. subst r. rewrite exec_call.
  cbn [outcome sent received].
  assert (Hfail : forall res rest,
             received (exec respond (handler_ t args) s) = Resolved res :: rest ->
             ok res = false ->
             outcome (exec respond (handler_ t args) s)
             = Raise (failure_message t args res)).
  { intros res rest Hrec Hok.
    now destruct (throws_on_first_exec respond _ s _ _ rest
                    (handler_first_failure t args res Hok) Hrec) as [-> _]. }
  repeat split.
  - intros Hin Hkey.
    destruct (missing_key_throws t args Hin Hkey) as (msg & -> & Hmsg).
    exists msg. cbn. auto.
  - intros names res fields rest Hnames Hrec Hok Hjson Hnot.
    rewrite (Hfail res rest Hrec Hok). unfold failure_message. rewrite Hnames.
    destruct (pending_guidance t) as [g |] eqn:Hg.
    + unfold pending_or. rewrite Hjson. cbn [mbind res_bind get].
      destruct Hnot as [Hnone | [Hst | Hcode]]; [discriminate | |].
      * apply Z.eqb_neq in Hst. rewrite Hst. cbn [mret res_ret].
        now rewrite pick_first_truthy.
      * destruct (status res =? 403); cbn [mret res_ret mbind res_bind];
          rewrite ?Hcode, pick_first_truthy; reflexivity.
    + unfold api_error. rewrite Hjson. cbn [mbind res_bind].
      now rewrite pick_first_truthy.
  - intros guidance res fields rest Hg Hrec Hst Hjson Hcode.
    assert (Hok : ok res = false) by (unfold ok; rewrite Hst; reflexivity).
    rewrite (Hfail res rest Hrec Hok). unfold failure_message. rewrite Hg.
    destruct (error_fields t) as [names |] eqn:Hnames.
    + unfold pending_or. rewrite Hjson, Hst. cbn [mbind res_bind get Z.eqb Pos.eqb].
      rewrite Hcode. reflexivity.
    + destruct t; discriminate.
  - intros res rest Hnames Hrec Hok.
    rewrite (Hfail res rest Hrec Hok). unfold failure_message. now rewrite Hnames.
Qed.


(** C9. create_job_offer can report failure although the job was created:
    when the job-creation request has succeeded and the follow-up request for
    the human's profile gets a non-ok response, the call returns the error
    result "Error: Human not found: human_id", a text made of the arguments
    alone (nothing of the created job, so no job id, is in it), after exactly
    the POST that created the job and the GET of the profile; and a creation
    that itself failed can yield the very same result, so the caller cannot
    tell the two apart. *)
Theorem C9_offer_created_yet_reported_failed :
  forall (St : Type) (respond : St -> Request -> FetchResult * St)
         (args : Args) (s : St) (res1 res2 : Response) (rest : list FetchResult),
    let r := exec respond (call "create_job_offer" args) s in
    received r = Resolved res1 :: Resolved res2 :: rest ->
    ok res1 = true ->
    ok res2 = false ->
    outcome r
    = Value {| text := "Error: Human not found: " +:+ to_string (arg args "human_id");
               isError := true |}
    /\ (exists create,
          sent r = [ create;
                     plain_get (API_BASE +:+ "/api/humans/"
                                +:+ to_string (arg args "human_id")) None ]
          /\ method create = POST
          /\ url create = API_BASE +:+ "/api/jobs")
    /\ (exists denied,
          ok denied = false
          /\ outcome (exec scripted (call "create_job_offer" args) [Resolved denied])
             = outcome r).
Proof.
  intros St respond args s res1 res2 rest r Hrec Hok1 Hok2. subst r.
  rewrite (exec_call respond create_job_offer) in *.
  cbn [outcome sent received handler] in *.
  unfold handle_create_job_offer, getHuman, fetch, mbind, prog_mbind in *.
  destruct (truthy (arg args "agent_key")) eqn:Hkey; cbn [negb] in *;
    [| discriminate Hrec].
  cbn [prog_bind exec] in *.
  destruct (respond s _) as [a1 s1]. cbn [received sent outcome] in *.
  injection Hrec as -> Hrec.
  cbn [prog_bind] in *. rewrite Hok1 in *. cbn [negb] in *.
  destruct (json res1) as [job | m]; cbn [lift prog_bind exec] in *;
    [| discriminate Hrec].
  destruct (respond s1 _) as [a2 s2]. cbn [received sent outcome] in *.
  injection Hrec as -> Hrec.
  cbn [prog_bind] in *. rewrite Hok2 in *. cbn [negb prog_bind exec outcome sent] in *.
  split; [reflexivity |]. split.
  - eexists. split; [reflexivity |]. split; reflexivity.
  - exists {| status := 404;
              json := Value (JObj [ ("error", JStr ("Human not found: "
                                       +:+ to_string (arg args "human_id"))) ]) |}.
    split; [reflexivity |].
    rewrite (exec_call scripted create_job_offer). cbn [handler outcome].
    unfold handle_create_job_offer, fetch, mbind, prog_mbind.
    rewrite Hkey. reflexivity.
Qed.

Lemma arg_insert (args : Args) (k k' : string) (v : JValue) :
  arg (<[k := v]> args) k' = if String.eqb k k' then v else arg args k'.
Proof.
  unfold arg. destruct (String.eqb_spec k k') as [-> | Hne].
  - now rewrite lookup_insert_eq.
  - now rewrite lookup_insert_ne.
Qed.

Lemma arg_delete (args : Args) (k k' : string) :
  arg (delete k args) k' = if String.eqb k k' then JUndefined else arg args k'.
Proof.
  unfold arg. destruct (String.eqb_spec k k') as [-> | Hne].
  - now rewrite lookup_delete_eq.
  - now rewrite lookup_delete_ne.
Qed.

(** Setting one parameter leaves the others as they were. *)
Lemma header_qset_ne (q : list (string * string)) (k v name : string) :
  String.eqb k name = false -> header (qset q k v) name = header q name.
Proof.
  intros Hne. induction q as [| [k' v'] q IH]; cbn.
  - now rewrite Hne.
  - destruct (String.eqb k' k) eqn:Hk; cbn.
    + apply String.eqb_eq in Hk. subst k'. rewrite Hne.
      clear IH. induction q as [| [k2 v2] q IH2]; cbn; [reflexivity |].
      destruct (String.eqb k2 k) eqn:Hk2; cbn.
      * apply String.eqb_eq in Hk2. subst k2. now rewrite Hne.
      * destruct (String.eqb k2 name); [reflexivity | exact IH2].
    + destruct (String.eqb k' name); [reflexivity | exact IH].
Qed.

Lemma header_set_if (v : JValue) (k name : string) (q : list (string * string)) :
  String.eqb k name = false ->
  header (set_if v k q) name = header q name.
Proof.
  intros Hne. unfold set_if.
  destruct (truthy v); [now apply header_qset_ne | reflexivity].
Qed.

(** C10. In search_humans and get_listings a numeric filter or pagination
    argument whose value is 0 is treated exactly as if it had not been
    supplied: the call with the argument set to 0 is the same program as the
    call without the argument, and the one request it sends has no query
    parameter of that name. *)
Theorem C10_zero_filter_is_omitted :
  forall (t : Tool) (k param : string) (args : Args),
    In (k, param) (numeric_filters t) ->
    call (tool_name t) (<[k := JNum 0]> args) = call (tool_name t) (delete k args)
    /\ (forall (St : Type) (respond : St -> Request -> FetchResult * St) (s : St),
          exists req q,
            sent (exec respond (call (tool_name t) (<[k := JNum 0]> args)) s) = [req]
            /\ query req = Some q
            /\ header q param = None).
Proof.
  intros t k param args Hin.
  assert (Hh : handler_ t (<[k := JNum 0]> args) = handler_ t (delete k args)
               /\ exists u q, single (plain_get u (Some q)) (handler_ t (<[k := JNum 0]> args))
                              /\ header q param = None).
  { destruct t; cbn in Hin; try contradiction;
      repeat (destruct Hin as [Hin | Hin];
              [ injection Hin as <- <-;
                cbn [handler];
                unfold handle_search_humans, handle_get_listings, searchHumans;
                cbn [skill equipment language location lat lng radius max_rate
                     available_only work_mode verified];
                rewrite !arg_insert, !arg_delete; cbn [String.eqb Ascii.eqb Bool.eqb];
                cbn [set_if truthy Z.eqb negb];
                split;
                [ reflexivity
                | do 2 eexists; split;
                  [ repeat first [ apply single_fetch_then; intros ?; silent_tac
                                 | apply single_bind; [ | intros ?; silent_tac ] ]
                  | repeat (rewrite header_set_if by reflexivity);
                    try (destruct (not_false _); [rewrite header_qset_ne by reflexivity |]);
                    repeat (rewrite header_set_if by reflexivity);
                    reflexivity ] ]
              | ]);
      destruct Hin. }
  destruct Hh as (Heq & u & q & Hs & Hq). split.
  - unfold callTool. rewrite tool_of_name_tool_name. now rewrite Heq.
  - intros St respond s. exists (plain_get u (Some q)), q.
    rewrite exec_call. cbn [sent]. rewrite (single_exec respond _ _ s Hs). auto.
Qed.

(** Closes [sends] goals down to the requests themselves. *)
Ltac sends_tac :=
  repeat match goal with
  | |- sends _ (if ?b then _ else _) => destruct b
  | |- sends _ (Throw _) => constructor
  | |- sends _ (Ret _) => constructor
  | |- sends _ (mret _) => constructor
  | |- sends _ (lift _) => apply silent_sends, silent_lift
  | |- sends _ (fetch _) => apply sends_fetch
  | |- sends _ (_ ≫= _) => apply sends_bind; [ | intros ? ]
  end.

Lemma handler_sends_own_credential (t : Tool) (args : Args) :
  sends (credential_from args) (handler_ t args).
Proof.
  destruct t; cbn [handler];
    unfold handle_search_humans, handle_get_human, handle_register_agent,
      handle_get_agent_profile, handle_verify_agent_domain, handle_create_job_offer,
      handle_get_job_status, handle_mark_job_paid, handle_check_humanity_status,
      handle_get_human_profile, handle_request_activation_code,
      handle_verify_social_activation, handle_get_activation_status,
      handle_get_payment_activation, handle_verify_payment_activation,
      handle_start_stream, handle_record_stream_tick, handle_pause_stream,
      handle_resume_stream, handle_stop_stream, handle_send_job_message,
      handle_get_job_messages, handle_create_listing, handle_get_listings,
      handle_get_listing, handle_get_listing_applications, handle_make_listing_offer,
      handle_cancel_listing, handle_get_promo_status, handle_claim_free_pro_upgrade,
      handle_leave_review, keyed_call, searchHumans, getHuman;
    sends_tac;
    unfold credential_from;
    cbn [header headers app x_agent_key content_type_json plain_get
         String.eqb Ascii.eqb Bool.eqb];
    intros key Hkey; first [ discriminate Hkey | now injection Hkey as <- ].
Qed.

Lemma serve_app {St : Type} (respond : St -> Request -> FetchResult * St)
    (calls1 calls2 : list (string * Args)) (s : St) :
  exists s', serve API_BASE render render_args respond (calls1 ++ calls2) s
             = (serve API_BASE render render_args respond calls1 s
                ++ serve API_BASE render render_args respond calls2 s')%list.
Proof.
  revert s. induction calls1 as [| [name args] calls1 IH]; intros s.
  - exists s. reflexivity.
  - cbn [serve app]. destruct (IH (final (exec respond (call name args) s))) as [s' ->].
    now exists s'.
Qed.

(** C8. The tool layer is stateless and deterministic.  Two invocations of
    the same tool with the same arguments that receive the same answers from
    the collaborator return the same result and send the same requests,
    whatever calls the process served before each of them (with whatever
    credentials) and whatever the collaborators' states are; and every
    X-Agent-Key a call sends is the agent_key of that call's own arguments. *)
Theorem C8_stateless_two_run_determinism :
  (forall (St1 St2 : Type)
          (respond1 : St1 -> Request -> FetchResult * St1)
          (respond2 : St2 -> Request -> FetchResult * St2)
          (before1 before2 : list (string * Args)) (name : string) (args : Args)
          (s1 : St1) (s2 : St2) (r1 : Run ToolResult St1) (r2 : Run ToolResult St2),
      last (serve API_BASE render render_args respond1 (before1 ++ [(name, args)]) s1)
        = Some r1 ->
      last (serve API_BASE render render_args respond2 (before2 ++ [(name, args)]) s2)
        = Some r2 ->
      received r1 = received r2 ->
      outcome r1 = outcome r2 /\ sent r1 = sent r2)
  /\ (forall (St : Type) (respond : St -> Request -> FetchResult * St)
             (calls : list (string * Args)) (s : St),
        Forall2 (fun c r => Forall (credential_from (snd c)) (sent r))
                calls (serve API_BASE render render_args respond calls s)).
Proof.
  split.
  - intros St1 St2 respond1 respond2 before1 before2 name args s1 s2 r1 r2 H1 H2 Hrec.
    destruct (serve_app respond1 before1 [(name, args)] s1) as [s1' E1].
    destruct (serve_app respond2 before2 [(name, args)] s2) as [s2' E2].
    rewrite E1 in H1. rewrite E2 in H2. cbn [serve] in H1, H2.
    rewrite last_snoc in H1. rewrite last_snoc in H2.
    injection H1 as <-. injection H2 as <-.
    now apply exec_answers.
  - intros St respond calls. induction calls as [| [name args] calls IH]; intros s.
    + constructor.
    + cbn [serve]. constructor; [| apply IH].
      cbn [snd]. apply sends_exec. unfold callTool.
      apply sends_try_catch; [| intros m; constructor].
      destruct (tool_of_name name) as [t |]; [| constructor].
      apply sends_bind; [apply handler_sends_own_credential | intros shown; constructor].
Qed.

End HandlerFacts.

(** ** The stream bookkeeping *)

Module StreamFacts.
Import StreamSpec.

Lemma step_keeps_terms (st st' : StreamState) (op : Op) :
  step st op = inr st' ->
  streamMethod st' = streamMethod st /\ rate st' = rate st /\ maxTicks st' = maxTicks st.
Proof.
  destruct op as [fv | [amount |] | fd | fv |]; cbn;
    repeat match goal with
           | |- context [match ?x with _ => _ end] => destruct x eqn:?
           end;
    intros H; inversion H; subst; cbn; auto.
Qed.

Lemma apply_keeps_terms (st : StreamState) (op : Op) :
  streamMethod (apply st op) = streamMethod st
  /\ rate (apply st op) = rate st
  /\ maxTicks (apply st op) = maxTicks st.
Proof.
  unfold apply. destruct (step st op) as [e | st'] eqn:H; [auto |].
  now apply step_keeps_terms in H.
Qed.

Lemma run_cons (st : StreamState) (op : Op) (ops : list Op) :
  run st (op :: ops) = run (apply st op) ops.
Proof. reflexivity. Qed.

Lemma run_keeps_terms (ops : list Op) (st : StreamState) :
  streamMethod (run st ops) = streamMethod st
  /\ rate (run st ops) = rate st
  /\ maxTicks (run st ops) = maxTicks st.
Proof.
  revert st. induction ops as [| op ops IH]; intros st; [auto |].
  rewrite run_cons. destruct (IH (apply st op)) as (-> & -> & ->).
  apply apply_keeps_terms.
Qed.

(** A verified tick: the count goes up by one, the total by the agreed rate,
    and the transfer found is exactly the rate. *)
Lemma tick_success (st st' : StreamState) (transfer : option N) :
  step st (RecordTick transfer) = inr st' ->
  tickCount st' = S (tickCount st)
  /\ totalPaid st' = (totalPaid st + rate st)%N
  /\ transfer = Some (rate st).
Proof.
  cbn. destruct (negb (is_micro st && pendingTick st)); [discriminate |].
  destruct transfer as [amount |]; [| discriminate].
  destruct (N.eqb_spec amount (rate st)) as [-> |]; [| discriminate].
  intros H. inversion H; subst. cbn. auto.
Qed.

(** Any other successful operation leaves the count and the total alone. *)
Lemma other_success (st st' : StreamState) (op : Op) :
  (forall transfer, op <> RecordTick transfer) ->
  step st op = inr st' ->
  tickCount st' = tickCount st /\ totalPaid st' = totalPaid st.
Proof.
  intros Hop.
  destruct op as [fv | transfer | fd | fv |]; [| now destruct (Hop transfer) | | |]; cbn;
    repeat match goal with
           | |- context [match ?x with _ => _ end] => destruct x eqn:?
           end;
    intros H; inversion H; subst; cbn; auto.
Qed.

Lemma step_within_cap (st st' : StreamState) (op : Op) :
  within_cap st -> step st op = inr st' -> within_cap st'.
Proof.
  intros [Hstop Hcap] Hstep. unfold within_cap.
  destruct op as [fv | transfer | fd | fv |].
  - cbn in Hstep.
    destruct (subStatus st) eqn:Hsub; try discriminate.
    destruct (is_micro st); [| destruct fv; [| discriminate]];
      inversion Hstep; subst; cbn; (split; [discriminate |]);
      intros m Hm; destruct (Hcap m Hm) as [Hle Hlt]; split; auto;
      intros _; apply Hlt; rewrite Hsub; discriminate.
  - cbn in Hstep.
    destruct (is_micro st && pendingTick st) eqn:Hopen; cbn in Hstep; [| discriminate].
    apply andb_true_iff in Hopen as [_ Hpending].
    destruct transfer as [amount |]; [| discriminate].
    destruct (amount =? rate st)%N; [| discriminate].
    inversion Hstep; subst; cbn. clear Hstep.
    assert (Hns : subStatus st <> STOPPED).
    { intros Hs. rewrite (Hstop Hs) in Hpending. discriminate. }
    split.
    + destruct (cap_reached (maxTicks st) (S (tickCount st))); [reflexivity |].
      intros Hs. now destruct Hns.
    + intros m Hm. destruct (Hcap m Hm) as [Hle Hlt]. specialize (Hlt Hns).
      rewrite Hm. cbn. split; [lia |].
      destruct (Nat.leb_spec m (S (tickCount st))) as [Hge | Hlt'];
        [intros Hne; now destruct Hne | lia].
  - cbn in Hstep.
    destruct (subStatus st) eqn:Hsub; try discriminate.
    destruct (is_micro st); [| destruct fd; [| discriminate]];
      inversion Hstep; subst; cbn; (split; [discriminate |]);
      intros m Hm; destruct (Hcap m Hm) as [Hle Hlt]; split; auto;
      intros _; apply Hlt; rewrite Hsub; discriminate.
  - cbn in Hstep.
    destruct (subStatus st) eqn:Hsub; try discriminate.
    destruct (is_micro st); [| destruct fv; [| discriminate]];
      inversion Hstep; subst; cbn; (split; [discriminate |]);
      intros m Hm; destruct (Hcap m Hm) as [Hle Hlt]; split; auto;
      intros _; apply Hlt; rewrite Hsub; discriminate.
  - cbn in Hstep.
    destruct (subStatus st) eqn:Hsub; try discriminate;
      inversion Hstep; subst; cbn; (split; [reflexivity |]);
      intros m Hm; destruct (Hcap m Hm) as [Hle Hlt]; split; auto;
      intros H; now destruct H.
Qed.

Lemma apply_within_cap (st : StreamState) (op : Op) :
  within_cap st -> within_cap (apply st op).
Proof.
  intros H. unfold apply. destruct (step st op) as [e | st'] eqn:Hs; [exact H |].
  exact (step_within_cap st st' op H Hs).
Qed.

Lemma run_within_cap (ops : list Op) (st : StreamState) :
  within_cap st -> within_cap (run st ops).
Proof.
  revert st. induction ops as [| op ops IH]; intros st H; [exact H |].
  rewrite run_cons. apply IH, apply_within_cap, H.
Qed.

(** The books of a run: the total grows by the sum of the verified ticks, the
    count by their number, and each verified tick is of the agreed rate. *)
Lemma run_books (ops : list Op) (st : StreamState) :
  totalPaid (run st ops) = (totalPaid st + sum_amounts (verified_ticks st ops))%N
  /\ tickCount (run st ops) = (tickCount st + length (verified_ticks st ops))%nat
  /\ Forall (fun amount => amount = rate st) (verified_ticks st ops).
Proof.
  revert st. induction ops as [| op ops IH]; intros st.
  - cbn. split; [lia | split; [lia | constructor]].
  - rewrite run_cons.
    destruct (step st op) as [e | st'] eqn:Hstep.
    + assert (Happly : apply st op = st) by (unfold apply; now rewrite Hstep).
      assert (Hv : verified_ticks st (op :: ops) = verified_ticks st ops).
      { cbn [verified_ticks]. rewrite Happly.
        destruct op as [fv | [amount |] | fd | fv |]; try reflexivity.
        now rewrite Hstep. }
      rewrite Happly, Hv. apply IH.
    + assert (Happly : apply st op = st') by (unfold apply; now rewrite Hstep).
      destruct (step_keeps_terms st st' op Hstep) as (_ & Hrate & _).
      destruct (IH st') as (Ht & Hc & Hf). rewrite Hrate in Hf.
      rewrite Happly, Ht, Hc.
      assert (Hother : (forall transfer, op <> RecordTick transfer) ->
                       verified_ticks st (op :: ops) = verified_ticks st' ops
                       /\ tickCount st' = tickCount st /\ totalPaid st' = totalPaid st).
      { intros Hop. destruct (other_success st st' op Hop Hstep) as [-> ->].
        cbn [verified_ticks]. rewrite Happly.
        destruct op as [fv | transfer | fd | fv |]; auto. now destruct (Hop transfer). }
      destruct op as [fv | [amount |] | fd | fv |];
        try (destruct Hother as (-> & -> & ->); [intros ?; discriminate | auto]).
      * destruct (tick_success st st' _ Hstep) as (-> & -> & Ha).
        injection Ha as ->. cbn [verified_ticks]. rewrite Hstep.
        cbn [sum_amounts fold_right length].
        fold (sum_amounts (verified_ticks st' ops)).
        split; [lia | split; [lia | constructor; auto]].
      * destruct (tick_success st st' _ Hstep) as (_ & _ & Ha). discriminate.
Qed.

Lemma new_stream_within_cap (r : N) (cap : option nat) :
  (forall m, cap = Some m -> (0 < m)%nat) -> within_cap (new_stream r cap).
Proof.
  intros Hcap. split; cbn; [discriminate |].
  intros m Hm. specialize (Hcap m Hm). split; [lia | intros _; lia].
Qed.

End StreamFacts.


(** The record_stream_tick tool against the specified bookkeeping: the call
    submits one tick, the transaction reference of its arguments; the stream
    ends up as that tick leaves it, and when the tick is refused the stream
    is unchanged and the call returns an error result. *)
Lemma record_stream_tick_submits_one_tick
    (API_BASE : string) (render : Tool -> JValue -> Res string)
    (render_args : Tool -> Args -> JValue -> Res string)
    (transfer_of : JValue -> option N)
    (ok_response : StreamSpec.StreamState -> Response)
    (error_response : StreamSpec.StreamError -> Response)
    (args : Args) (st : StreamSpec.StreamState) :
  (forall e, ok (error_response e) = false) ->
  truthy (arg args "agent_key") = true ->
  let tick := StreamSpec.RecordTick (transfer_of (arg args "tx_hash")) in
  let r := exec (tick_backend transfer_of ok_response error_response)
             (callTool API_BASE render render_args "record_stream_tick" args) st in
  final r = StreamSpec.apply st tick
  /\ length (sent r) = 1%nat
  /\ (forall e, StreamSpec.step st tick = inl e ->
        final r = st
        /\ exists res, outcome r = Value res /\ isError res = true).
Proof.
  intros Herr Hkey tick r. subst r.
  rewrite (exec_call API_BASE render render_args _ record_stream_tick).
  cbn [handler final sent outcome].
  unfold handle_record_stream_tick, keyed_call. rewrite Hkey. cbn [negb].
  rewrite exec_fetch_then.
  match goal with |- context [tick_backend _ _ _ st ?q] => set (req := q) end.
  assert (Hans : tick_backend transfer_of ok_response error_response st req
                 = match StreamSpec.step st tick with
                   | inr st' => (Resolved (ok_response st'), st')
                   | inl e => (Resolved (error_response e), st)
                   end).
  { unfold tick_backend, req, tick. cbn [body json_body mbind option_bind List.filter snd].
    destruct (arg args "tx_hash"); reflexivity. }
  rewrite Hans. unfold StreamSpec.apply.
  destruct (StreamSpec.step st tick) as [e | st'] eqn:Hstep.
  - rewrite Herr. cbn [negb exec final sent outcome length].
    split; [reflexivity |]. split; [reflexivity |].
    intros e' _. split; [reflexivity |]. eexists. split; reflexivity.
  - match goal with |- context [exec _ ?q st'] => set (after := q) end.
    assert (Hsilent : silent after).
    { unfold after. destruct (negb (ok (ok_response st'))); [exact I |].
      apply silent_bind; [apply silent_lift | intros v; apply silent_lift]. }
    destruct (silent_exec (tick_backend transfer_of ok_response error_response)
                after st' Hsilent) as [Hsent Hfinal].
    cbn [final sent]. rewrite Hsent, Hfinal.
    split; [reflexivity |]. split; [reflexivity |]. intros e' He. discriminate.
Qed.

(** verify_agent_domain makes no local check of the credential: without an
    agent_key it still sends its request, the header reading "undefined". *)
Lemma verify_agent_domain_sends_without_key :
  map (fun req => header (headers req) "X-Agent-Key")
      (sent (exec scripted
               (sample_call "verify_agent_domain"
                  (list_to_map [ ("agent_id", JStr "agent_1"); ("method", JStr "dns") ]))
               [ refused 401 (JObj [ ("error", JStr "Invalid API key") ]) ]))
  = [ Some "undefined" ].
Proof. vm_compute. reflexivity. Qed.

(** ** Concrete runs *)

(** C1, as stated, fails for mark_job_paid and leave_review: called with the
    credential of a PENDING agent, each sends its request without any
    X-Agent-Key header, and a collaborator that turns that credential away
    lets the call through. *)
Lemma C1_counterexample_no_credential_on_mark_paid_and_review :
  let paid := exec (pending_gate "hp_pending") (sample_call "mark_job_paid" paid_args) tt in
  let review := exec (pending_gate "hp_pending")
                  (sample_call "leave_review" (<["agent_key" := JStr "hp_pending"]> (review_args 5)))
                  tt in
  map (fun req => header (headers req) "X-Agent-Key") (sent paid) = [None]
  /\ outcome paid = Value {| text := "mark_job_paid"; isError := false |}
  /\ map (fun req => header (headers req) "X-Agent-Key") (sent review) = [None]
  /\ outcome review = Value {| text := "leave_review"; isError := false |}.
Proof. vm_compute. repeat split. Qed.

(** create_job_offer with the credential of a PENDING agent, against the
    collaborator that turns it away: the call fails. *)
Lemma C1_witness_pending_offer_fails :
  exists res,
    outcome (exec (pending_gate "hp_pending")
               (sample_call (tool_name create_job_offer) offer_args) tt) = Value res
    /\ isError res = true.
Proof.
  destruct (C1_credential_attached_where_declared sample_base sample_render
              sample_render_args unit (pending_gate "hp_pending")
              create_job_offer offer_args tt) as [Hkeyed _].
  destruct Hkeyed as [_ Hpending]; [cbn; auto |].
  apply Hpending.
  change (to_string (arg offer_args "agent_key")) with "hp_pending".
  intros s req Hh. unfold pending_gate. rewrite Hh. cbn.
  eexists. split; [reflexivity |]. split; [reflexivity |].
  eexists. split; reflexivity.
Defined.

(** C4, as stated, fails where the layer substitutes its own text: the
    collaborator's 403 AGENT_PENDING answer to create_job_offer comes back as
    this layer's activation guidance, in which the collaborator's error text
    does not occur. *)
Lemma C4_counterexample_pending_text_is_replaced :
  let r := exec scripted (sample_call "create_job_offer" offer_args)
             [ refused 403 (JObj [ ("error", JStr "Agent is pending activation");
                                   ("code", JStr "AGENT_PENDING") ]) ] in
  outcome r = Value {| text := "Error: " +:+ create_job_offer_pending; isError := true |}
  /\ includes ("Error: " +:+ create_job_offer_pending) "Agent is pending activation" = false.
Proof. vm_compute. split; reflexivity. Qed.

(** create_job_offer without agent_key fails locally with no request; the
    reason the collaborator gives for refusing mark_job_paid comes back as it
    is. *)
Lemma C4_witness_missing_key_and_relayed_reason :
  (exists msg,
     outcome (exec scripted (sample_call (tool_name create_job_offer) offer_args_without_key) [])
     = Value {| text := "Error: " +:+ msg; isError := true |}
     /\ includes msg "agent_key is required" = true
     /\ sent (exec scripted (sample_call (tool_name create_job_offer) offer_args_without_key) [])
        = [])
  /\ outcome (exec scripted (sample_call (tool_name mark_job_paid) paid_args)
                [ refused 400 (JObj [ ("error", JStr "Invalid state");
                                      ("reason", JStr "Job is not in ACCEPTED status") ]) ])
     = Value {| text := "Error: Job is not in ACCEPTED status"; isError := true |}.
Proof.
  split.
  - apply (C4_local_and_relayed_errors sample_base sample_render sample_render_args
             (list FetchResult) scripted create_job_offer offer_args_without_key []).
    + cbn. auto.
    + reflexivity.
  - apply (proj1 (proj2 (C4_local_and_relayed_errors sample_base sample_render
                           sample_render_args (list FetchResult) scripted mark_job_paid
                           paid_args
                           [ refused 400 (JObj [ ("error", JStr "Invalid state");
                                                 ("reason", JStr "Job is not in ACCEPTED status") ]) ]))
             ["reason"; "error"]
             {| status := 400;
                json := Value (JObj [ ("error", JStr "Invalid state");
                                      ("reason", JStr "Job is not in ACCEPTED status") ]) |}
             [ ("error", JStr "Invalid state");
               ("reason", JStr "Job is not in ACCEPTED status") ]
             []); try reflexivity.
    left. reflexivity.
Defined.




(** The job job_1 is created, the profile request is answered 500, and the
    caller is told the human was not found. *)
Lemma C9_witness_profile_fetch_fails_after_creation :
  outcome (exec scripted (sample_call "create_job_offer" offer_args)
             [ created (JObj [ ("id", JStr "job_1"); ("status", JStr "PENDING") ]);
               refused 500 (JObj []) ])
  = Value {| text := "Error: Human not found: human_1"; isError := true |}.
Proof.
  apply (C9_offer_created_yet_reported_failed sample_base sample_render sample_render_args
           (list FetchResult) scripted offer_args
           [ created (JObj [ ("id", JStr "job_1"); ("status", JStr "PENDING") ]);
             refused 500 (JObj []) ]
           {| status := 201;
              json := Value (JObj [ ("id", JStr "job_1"); ("status", JStr "PENDING") ]) |}
           {| status := 500; json := Value (JObj []) |} []);
    reflexivity.
Defined.

(** search_humans with lat = 0 is search_humans without lat. *)
Lemma C10_witness_latitude_zero :
  In ("lat", "lat") (numeric_filters search_humans)
  /\ sample_call (tool_name search_humans) (<["lat" := JNum 0]> search_args)
     = sample_call (tool_name search_humans) (delete "lat" search_args).
Proof.
  assert (Hin : In ("lat", "lat") (numeric_filters search_humans)) by (cbn; auto).
  split; [exact Hin |].
  exact (proj1 (C10_zero_filter_is_omitted sample_base sample_render sample_render_args
                  search_humans "lat" "lat" search_args Hin)).
Defined.

(** * Further properties *)

(** ** The advertised tools and the dispatch *)

(** X1. The ListTools answer and the CallTool dispatch agree: the advertised
    names are pairwise distinct, a name is advertised exactly when a branch of
    the handler answers to it, and every schema requires only properties it
    declares. *)
Theorem X1_advertised_tools_are_the_served_ones :
  NoDup (map decl_name listTools)
  /\ (forall name, In name (map decl_name listTools) <-> exists t, tool_of_name name = Some t)
  /\ Forall (fun d => incl (decl_required d) (decl_properties d)) listTools.
Proof.
  split; [| split].
  - compute_done.
  - intros name. split.
    + intros Hin. cbn in Hin.
      repeat (destruct Hin as [<- | Hin]; [eexists; reflexivity |]).
      destruct Hin.
    + intros [t Ht]. apply tool_of_name_Some in Ht. subst name.
      destruct t; cbn; repeat (first [left; reflexivity | right]).
  - unfold listTools.
    repeat (apply List.Forall_cons;
            [ intros k Hk; cbn in Hk |- *;
              repeat (destruct Hk as [<- | Hk];
                      [repeat (first [left; reflexivity | right]) |]);
              destruct Hk
            | ]).
    apply List.Forall_nil.
Qed.

(** ** How many requests a call makes *)

Ltac unfold_handlers :=
  unfold handle_search_humans, handle_get_human, handle_register_agent,
    handle_get_agent_profile, handle_verify_agent_domain, handle_create_job_offer,
    handle_get_job_status, handle_mark_job_paid, handle_check_humanity_status,
    handle_get_human_profile, handle_request_activation_code,
    handle_verify_social_activation, handle_get_activation_status,
    handle_get_payment_activation, handle_verify_payment_activation,
    handle_start_stream, handle_record_stream_tick, handle_pause_stream,
    handle_resume_stream, handle_stop_stream, handle_send_job_message,
    handle_get_job_messages, handle_create_listing, handle_get_listings,
    handle_get_listing, handle_get_listing_applications, handle_make_listing_offer,
    handle_cancel_listing, handle_get_promo_status, handle_claim_free_pro_upgrade,
    handle_leave_review, keyed_call, searchHumans, getHuman.

Ltac no_fetch_tac :=
  repeat match goal with
  | |- silent (if ?b then _ else _) => destruct b
  | |- silent (Throw _) => exact I
  | |- silent (Ret _) => exact I
  | |- silent (mret _) => exact I
  | |- silent (lift _) => apply silent_lift
  | |- silent (_ ≫= _) => apply silent_bind; [ | intros ? ]
  end.

Lemma at_most_S {A : Type} (n : nat) (p : Prog A) : at_most n p -> at_most (S n) p.
Proof.
  revert p. induction n as [| n IH]; intros [a | m | req k]; try exact (fun _ => I).
  - intros [].
  - intros H ans. apply IH, H.
Qed.

Lemma at_most_le {A : Type} (n m : nat) (p : Prog A) :
  (n <= m)%nat -> at_most n p -> at_most m p.
Proof. induction 1 as [| j Hle IH]; [auto | intros H; apply at_most_S, IH, H]. Qed.

Lemma at_most_silent {A : Type} (n : nat) (p : Prog A) : silent p -> at_most n p.
Proof. destruct p, n; cbn; tauto. Qed.

Lemma at_most_lift {A : Type} (n : nat) (r : Res A) : at_most n (lift r).
Proof. apply at_most_silent, silent_lift. Qed.

Lemma at_most_bind {A B : Type} (n m : nat) (p : Prog A) (f : A -> Prog B) :
  at_most n p -> (forall a, at_most m (f a)) -> at_most (n + m) (p ≫= f).
Proof.
  unfold mbind, prog_mbind.
  intros Hp Hf. revert p Hp.
  induction n as [| n IH]; intros [a | msg | req k] Hp.
  - apply Hf.
  - exact I.
  - destruct Hp.
  - apply (at_most_le m); [lia | apply Hf].
  - exact I.
  - intros ans. apply IH, Hp.
Qed.

Lemma at_most_fetch (req : Request) : at_most 1 (fetch req).
Proof. cbn. intros [res | m]; exact I. Qed.

Lemma at_most_exec {A St : Type} (respond : St -> Request -> FetchResult * St)
    (n : nat) (p : Prog A) (s : St) :
  at_most n p -> (length (sent (exec respond p s)) <= n)%nat.
Proof.
  revert p s. induction n as [| n IH]; intros [a | msg | req k] s Hk;
    cbn in Hk |- *; try lia.
  destruct (respond s req) as [ans s']. cbn.
  specialize (IH (k ans) s' (Hk ans)). lia.
Qed.

(** After a failed answer a guarded program makes no further request. *)
Lemma guarded_failed_last {A St : Type} (respond : St -> Request -> FetchResult * St)
    (p : Prog A) (s : St) (i : nat) (ans : FetchResult) :
  guarded p ->
  received (exec respond p s) !! i = Some ans ->
  failed ans = true ->
  S i = length (received (exec respond p s)).
Proof.
  intros Hp. revert s i. induction Hp as [a | m | req k Hfail Hk IH]; intros s i; cbn.
  - discriminate.
  - discriminate.
  - destruct (respond s req) as [ans' s']. cbn. destruct i as [| i]; cbn.
    + intros [= ->] Hf. destruct (Hfail ans Hf) as [m ->]. reflexivity.
    + intros Hi Hf. f_equal. apply (IH ans' s' i Hi Hf).
Qed.

Lemma then_reads_exec {A St : Type} (respond : St -> Request -> FetchResult * St)
    (p : Prog A) (s : St) (i : nat) (req : Request) :
  then_reads p ->
  sent (exec respond p s) !! i = Some req ->
  method req <> GET -> i = 0%nat.
Proof.
  destruct p as [a | m | req0 k]; cbn; try discriminate.
  intros Hk. destruct (respond s req0) as [ans s']. cbn.
  destruct i as [| i]; [reflexivity |]. cbn. intros Hi Hm.
  pose proof (sends_exec _ respond (k ans) s' (Hk ans)) as Hall.
  exfalso. apply Hm. exact (Forall_lookup_1 _ _ _ _ Hall Hi).
Qed.

Ltac reads_tac :=
  repeat match goal with
  | |- sends _ (if ?b then _ else _) => destruct b
  | |- sends _ (Throw _) => constructor
  | |- sends _ (Ret _) => constructor
  | |- sends _ (mret _) => constructor
  | |- sends _ (lift _) => apply silent_sends, silent_lift
  | |- sends _ (fetch _) => apply sends_fetch
  | |- sends _ (_ ≫= _) => apply sends_bind; [ | intros ? ]
  end.

Lemma then_reads_fetch_then {A : Type} (req : Request) (f : Response -> Prog A) :
  (forall res, sends (fun req => method req = GET) (f res)) -> then_reads (fetch req ≫= f).
Proof.
  intros Hf. unfold mbind, prog_mbind, fetch. cbn.
  intros [res | m]; cbn; [apply Hf | constructor].
Qed.

Lemma then_reads_bind {A B : Type} (p : Prog A) (f : A -> Prog B) :
  then_reads p -> (forall a, sends (fun req => method req = GET) (f a)) ->
  then_reads (p ≫= f).
Proof.
  destruct p as [a | m | req k]; cbn; auto.
  - intros _ Hf. specialize (Hf a). destruct (f a); cbn; auto. now inversion Hf.
  - intros Hk Hf ans. apply (sends_bind _ (k ans) f); auto.
Qed.

Ltac at_most_tac :=
  repeat match goal with
  | |- at_most _ (if ?b then _ else _) => destruct b
  | |- at_most _ (Throw _) => exact I
  | |- at_most _ (Ret _) => exact I
  | |- at_most _ (mret _) => exact I
  | |- at_most _ (lift _) => apply at_most_lift
  | |- at_most 1 (fetch _) => apply at_most_fetch
  | |- at_most 1 (_ ≫= _) => apply (at_most_bind 1 0); [ | intros ? ]
  | |- at_most 0 (_ ≫= _) => apply (at_most_bind 0 0); [ | intros ? ]
  end.

Section ServerFacts.

Variable API_BASE : string.
Variable render : Tool -> JValue -> Res string.
Variable render_args : Tool -> Args -> JValue -> Res string.

Local Abbreviation handler_ := (handler API_BASE render render_args).
Local Abbreviation call := (callTool API_BASE render render_args).

Lemma handler_at_most_one (t : Tool) (args : Args) :
  t <> create_job_offer -> at_most 1 (handler_ t args).
Proof.
  intros Hne. destruct t; try congruence; cbn [handler]; unfold_handlers; at_most_tac.
Qed.

Lemma create_job_offer_at_most_two (args : Args) :
  at_most 2 (handle_create_job_offer API_BASE args).
Proof.
  unfold handle_create_job_offer. destruct (negb _); [exact I |].
  apply (at_most_bind 1 1); [apply at_most_fetch | intros res].
  destruct (negb _); [exact I |].
  apply (at_most_bind 0 1); [apply at_most_lift | intros job].
  unfold getHuman. at_most_tac.
Qed.

Lemma handler_then_reads (t : Tool) (args : Args) : then_reads (handler_ t args).
Proof.
  destruct t; cbn [handler]; unfold_handlers;
    try (destruct (negb (truthy (arg args "agent_key"))); [exact I |]);
    repeat first [ apply then_reads_fetch_then; intros ?; reads_tac
                 | apply then_reads_bind; [ | intros ?; reads_tac ] ];
    reflexivity.
Qed.

Lemma handler_fetches (t : Tool) (args : Args) :
  (In t checks_key -> truthy (arg args "agent_key") = true) ->
  exists req k, handler_ t args = Fetch req k.
Proof.
  intros H.
  destruct t; cbn [handler]; unfold_handlers;
    try (assert (Hk := H ltac:(cbn; tauto)); rewrite Hk; cbn [negb]);
    unfold mbind at 1, prog_mbind at 1, fetch at 1; cbn [prog_bind];
    do 2 eexists; reflexivity.
Qed.


(** X3. A call makes at most two requests, and at most one unless it is
    create_job_offer; only its first request can be anything but a GET, so a
    call changes the collaborator at most once; and nothing is retried: a
    rejected fetch or a non-ok response is the last answer the call receives. *)
Theorem X3_calls_make_few_requests_and_never_retry :
  forall (St : Type) (respond : St -> Request -> FetchResult * St)
         (name : string) (args : Args) (s : St),
    let r := exec respond (call name args) s in
    (length (sent r) <= 2)%nat
    /\ (name <> "create_job_offer" -> (length (sent r) <= 1)%nat)
    /\ (forall i req, sent r !! i = Some req -> method req <> GET -> i = 0%nat)
    /\ (forall i ans, received r !! i = Some ans -> failed ans = true ->
                      S i = length (received r)).
Proof.
  intros St respond name args s r.
  destruct (tool_of_name name) as [t |] eqn:Hname.
  - apply tool_of_name_Some in Hname as Heq. subst name.
    subst r. rewrite exec_call. cbn [sent received].
    assert (H1 : t <> create_job_offer ->
                 (length (sent (exec respond (handler_ t args) s)) <= 1)%nat).
    { intros Hne. apply at_most_exec. now apply handler_at_most_one. }
    split; [| split; [| split]].
    + destruct t; try (etransitivity; [apply H1; discriminate | lia]).
      apply at_most_exec. apply create_job_offer_at_most_two.
    + intros Hne. apply H1. intros ->. now apply Hne.
    + intros i req. apply then_reads_exec, handler_then_reads.
    + intros i ans. apply guarded_failed_last, handler_guarded.
  - subst r. rewrite (exec_call_unknown _ _ _ respond name args s Hname).
    cbn. repeat split; try lia; discriminate.
Qed.

Lemma prefix_app (a p q : string) :
  String.prefix (a +:+ p) (a +:+ q) = String.prefix p q.
Proof.
  induction a as [| c a IH]; [reflexivity |].
  change (String.prefix (String c (a +:+ p)) (String c (a +:+ q)) = String.prefix p q).
  simpl. destruct (ascii_dec c c); [exact IH | congruence].
Qed.

Lemma handler_urls (t : Tool) (args : Args) :
  sends (fun req => String.prefix (API_BASE +:+ "/api/") (url req) = true) (handler_ t args).
Proof.
  destruct t; cbn [handler]; unfold_handlers; reads_tac;
    cbn [url plain_get]; unfold job_path, listing_path;
    rewrite prefix_app; reflexivity.
Qed.


Lemma credentialed_first_request (t : Tool) (args : Args) :
  In t (verify_agent_domain :: checks_key) ->
  truthy (arg args "agent_key") = true ->
  exists req k,
    handler_ t args = Fetch req k
    /\ header (headers req) "X-Agent-Key" = Some (to_string (arg args "agent_key")).
Proof.
  intros Hin Hkey. cbn in Hin.
  repeat (destruct Hin as [<- | Hin];
          [ cbn [handler]; unfold_handlers;
            rewrite ?Hkey; cbn [negb];
            unfold fetch, mbind, prog_mbind; cbn [prog_bind];
            do 2 eexists; split; reflexivity
          | ]).
  destruct Hin.
Qed.

(** X5. The credential follows the schema.  A tool that declares agent_key
    declares it as required, and a call with a non-empty agent_key carries it
    as the X-Agent-Key header of its first request; a tool that does not
    declare agent_key never sends an X-Agent-Key header, even when the caller
    supplies one. *)
Theorem X5_credential_follows_the_schema :
  forall (St : Type) (respond : St -> Request -> FetchResult * St)
         (t : Tool) (d : ToolDecl) (args : Args) (s : St),
    declaration (tool_name t) = Some d ->
    let r := exec respond (call (tool_name t) args) s in
    (In "agent_key" (decl_properties d) ->
       In "agent_key" (decl_required d)
       /\ (truthy (arg args "agent_key") = true ->
           exists req rest,
             sent r = req :: rest
             /\ header (headers req) "X-Agent-Key" = Some (to_string (arg args "agent_key"))))
    /\ (~ In "agent_key" (decl_properties d) ->
        Forall (fun req => header (headers req) "X-Agent-Key" = None) (sent r)).
Proof.
  intros St respond t d args s Hd r. subst r. rewrite exec_call. cbn [sent].
  destruct t; vm_compute in Hd; injection Hd as <-; cbn [decl_properties decl_required];
    (split;
     [ intros Hin;
       first
         [ exfalso; cbn in Hin; intuition discriminate
         | split;
           [ cbn; tauto
           | intros Hkey;
             match goal with
             | |- context [handler_ ?t args] =>
                 destruct (credentialed_first_request t args ltac:(cbn; tauto) Hkey)
                   as (req & k & -> & Hh)
             end;
             destruct (exec_Fetch respond req k s) as (rest & _ & -> & _);
             eauto ] ]
     | intros Hn;
       first
         [ exfalso; apply Hn; cbn; tauto
         | apply sends_exec; cbn [handler]; unfold_handlers; reads_tac; reflexivity ] ]).
Qed.

(** X6. A call reads nothing of its arguments but the ones its branch names:
    two argument objects that agree on them (and on the text rendered from
    the arguments, for the two tools that echo them) give the same run against
    every collaborator. *)
Theorem X6_call_depends_on_the_arguments_it_reads :
  forall (St : Type) (respond : St -> Request -> FetchResult * St)
         (t : Tool) (args args' : Args) (s : St),
    (forall k, In k (reads t) -> arg args k = arg args' k) ->
    (forall result, render_args t args result = render_args t args' result) ->
    exec respond (call (tool_name t) args) s = exec respond (call (tool_name t) args') s.
Proof.
  intros St respond t args args' s Hargs Hrender.
  rewrite !exec_call.
  assert (exec respond (handler_ t args) s = exec respond (handler_ t args') s) as ->;
    [| reflexivity].
  destruct t; cbn [handler]; unfold_handlers; unfold job_path, listing_path, job_offer_created;
    cbn [reads] in Hargs;
    repeat match goal with
           | |- context [arg args ?k] => rewrite (Hargs k) by (cbn; tauto)
           end;
    try reflexivity;
    rewrite !exec_fetch_then;
    match goal with |- context [respond s ?req] => destruct (respond s req) as [[res | m] s'] end;
    try reflexivity; cbn zeta;
    destruct (negb (ok res)); try reflexivity;
    destruct (json res) as [result | m]; cbn; rewrite ?Hrender; reflexivity.
Qed.

Lemma append_inv_head (a b c : string) : a +:+ b = a +:+ c -> b = c.
Proof.
  induction a as [| x a IH]; cbn; intros H; [exact H |].
  injection H as H. auto.
Qed.

(** Derives a contradiction from [H], which says that the argument [k] never
    changes the call, by comparing the first requests of two calls. *)
Ltac contra_with H v :=
  let H' := fresh "H" in
  pose proof (f_equal first_request (H ({[ "agent_key" := JStr "k" ]} : Args) v)) as H';
  vm_compute in H';
  solve [ discriminate H'
        | injection H'; intros;
          first [ congruence
                | match goal with
                  | E : _ = _ |- _ => apply append_inv_head in E; discriminate E
                  end ] ].

(** X7. The coordinates agent_lat and agent_lng of create_job_offer are the
    only declared arguments a call ignores: the call is the same program
    whatever they are, and every other declared argument of every tool changes
    the call for some value. *)
Theorem X7_only_the_offer_coordinates_are_ignored :
  forall (t : Tool) (d : ToolDecl) (k : string),
    declaration (tool_name t) = Some d ->
    In k (decl_properties d) ->
    (forall (args : Args) (v : JValue),
        call (tool_name t) (<[k := v]> args) = call (tool_name t) args)
    <-> t = create_job_offer /\ (k = "agent_lat" \/ k = "agent_lng").
Proof.
  intros t d k Hd Hin.
  destruct t; vm_compute in Hd; injection Hd as <-; cbn [decl_properties] in Hin;
    repeat (destruct Hin as [<- | Hin];
            [ split;
              [ intros H;
                first [ split; [reflexivity | first [left; reflexivity | right; reflexivity]]
                      | exfalso;
                        first [ contra_with H (JStr "x") | contra_with H (JBool false) ] ]
              | intros [Ht Hk];
                first [ discriminate Ht
                      | destruct Hk as [Hk | Hk]; discriminate Hk
                      | intros args v; unfold callTool;
                        rewrite tool_of_name_tool_name; cbn [handler];
                        unfold handle_create_job_offer, job_offer_created;
                        rewrite !arg_insert; cbn [String.eqb Ascii.eqb Bool.eqb];
                        reflexivity ] ]
            | ]);
    destruct Hin.
Qed.

Lemma header_app (a b : list (string * string)) (name : string) :
  header (a ++ b)%list name = match header a name with
                              | Some v => Some v
                              | None => header b name
                              end.
Proof.
  induction a as [| [n v] a IH]; cbn; [reflexivity |].
  destruct (String.eqb n name); [reflexivity | exact IH].
Qed.

Lemma header_piece (c : bool) (param v name : string) :
  String.eqb param name = false ->
  header (if c then [(param, v)] else []) name = None.
Proof. intros H. destruct c; cbn; [now rewrite H | reflexivity]. Qed.

(** Setting a parameter that is not there yet appends it. *)
Lemma qset_fresh (q : list (string * string)) (k v : string) :
  header q k = None -> qset q k v = (q ++ [(k, v)])%list.
Proof.
  induction q as [| [k' v'] q IH]; cbn; [reflexivity |].
  destruct (String.eqb k' k); [discriminate |].
  intros H. now rewrite IH.
Qed.

Lemma set_if_fresh (v : JValue) (name : string) (q : list (string * string)) :
  header q name = None ->
  set_if v name q = (q ++ (if truthy v then [(name, to_string v)] else []))%list.
Proof.
  intros H. unfold set_if. destruct (truthy v); [now apply qset_fresh | now rewrite app_nil_r].
Qed.

Ltac fresh_tac := rewrite ?header_app, ?header_piece by reflexivity; reflexivity.

(** The names in the query are among the parameter names of the table, in
    its order. *)
Lemma query_names_sublist (args : Args) (params : list (string * string)) :
  sublist (map fst (flat_map (query_entry args) params)) (map snd params).
Proof.
  induction params as [| entry params IH]; [constructor |].
  cbn [flat_map map]. rewrite map_app. unfold query_entry at 1.
  destruct (String.eqb (fst entry) "available_only");
    match goal with |- context [if ?c then _ else _] => destruct c end;
    cbn [map app fst];
    first [ now apply sublist_skip | now apply sublist_cons ].
Qed.

Lemma search_humans_query (args : Args) :
  exists u, single (plain_get u (Some (flat_map (query_entry args) (query_params search_humans))))
                   (handler_ search_humans args).
Proof.
  cbn [handler]. unfold handle_search_humans, searchHumans.
  cbn [skill equipment language location lat lng radius max_rate available_only
       work_mode verified].
  rewrite (set_if_fresh _ "skill") by reflexivity.
  rewrite (set_if_fresh _ "equipment") by fresh_tac.
  rewrite (set_if_fresh _ "language") by fresh_tac.
  rewrite (set_if_fresh _ "location") by fresh_tac.
  rewrite (set_if_fresh _ "lat") by fresh_tac.
  rewrite (set_if_fresh _ "lng") by fresh_tac.
  rewrite (set_if_fresh _ "radius") by fresh_tac.
  rewrite (set_if_fresh _ "maxRate") by fresh_tac.
  rewrite (qset_fresh _ "available") by fresh_tac.
  assert (Hav : forall q : list (string * string),
             (if not_false (arg args "available_only")
              then (q ++ [("available", "true")])%list else q)
             = (q ++ (if not_false (arg args "available_only")
                      then [("available", "true")] else []))%list).
  { intros q. destruct (not_false _); [reflexivity | now rewrite app_nil_r]. }
  rewrite Hav.
  rewrite (set_if_fresh _ "workMode") by fresh_tac.
  rewrite (set_if_fresh _ "verified") by fresh_tac.
  cbn [query_params flat_map query_entry fst snd String.eqb Ascii.eqb Bool.eqb].
  rewrite app_nil_r, <- !app_assoc. cbn [app].
  eexists.
  apply single_bind; [| intros ?; no_fetch_tac].
  apply single_fetch_then. intros ?. no_fetch_tac.
Qed.

Lemma get_listings_query (args : Args) :
  exists u, single (plain_get u (Some (flat_map (query_entry args) (query_params get_listings))))
                   (handler_ get_listings args).
Proof.
  cbn [handler]. unfold handle_get_listings.
  rewrite (set_if_fresh _ "page") by reflexivity.
  rewrite (set_if_fresh _ "limit") by fresh_tac.
  rewrite (set_if_fresh _ "skill") by fresh_tac.
  rewrite (set_if_fresh _ "category") by fresh_tac.
  rewrite (set_if_fresh _ "workMode") by fresh_tac.
  rewrite (set_if_fresh _ "minBudget") by fresh_tac.
  rewrite (set_if_fresh _ "maxBudget") by fresh_tac.
  rewrite (set_if_fresh _ "lat") by fresh_tac.
  rewrite (set_if_fresh _ "lng") by fresh_tac.
  rewrite (set_if_fresh _ "radius") by fresh_tac.
  cbn [query_params flat_map query_entry fst snd String.eqb Ascii.eqb Bool.eqb].
  rewrite app_nil_r, <- !app_assoc. cbn [app].
  eexists.
  apply single_fetch_then. intros ?. no_fetch_tac.
Qed.


(** ** The guidance of get_job_status *)

Lemma nextStep_defined (job : JValue) :
  job <> JUndefined -> job <> JNull -> exists step, nextStep job = Value step.
Proof.
  intros Hu Hn.
  assert (Hobj : forall fields, exists step, nextStep (JObj fields) = Value step).
  { intros fields. unfold nextStep. cbn [get mbind res_bind mret res_ret].
    destruct (own fields "review"); cbn [truthy get mbind res_bind mret res_ret];
      repeat match goal with
             | |- context [if ?c then _ else _] => destruct c
             end; eauto. }
  destruct job; try congruence; try (eexists; reflexivity). apply Hobj.
Qed.


(** X10. tools.ts kept the guidance of index.ts: for every job object that
    is not a stream job waiting in ACCEPTED, STREAMING or PAUSED, the next
    step of get_job_status is the one index.ts computes. *)
Theorem X10_next_step_extends_index_ts :
  forall fields : list (string * JValue),
    is_str (own fields "paymentMode") "STREAM" = false
    \/ is_str (own fields "status") "ACCEPTED" = false ->
    is_str (own fields "status") "STREAMING" = false ->
    is_str (own fields "status") "PAUSED" = false ->
    nextStep (JObj fields) = IndexTs.nextStep (JObj fields).
Proof.
  intros fields Hmode Hstreaming Hpaused.
  unfold nextStep, IndexTs.nextStep. cbn [get mbind res_bind mret res_ret].
  rewrite Hstreaming, Hpaused.
  destruct (is_str (own fields "status") "PENDING"); [reflexivity |].
  destruct (is_str (own fields "status") "ACCEPTED").
  - destruct Hmode as [-> | Hacc]; [reflexivity | discriminate Hacc].
  - reflexivity.
Qed.

(** ** Answers that cannot be read *)

Lemma handler_first_rejected (t : Tool) (args : Args) (m : string) :
  throws_on_first (handler_ t args) (Rejected m) m.
Proof.
  destruct t; cbn [handler]; unfold_handlers; unfold fetch, mbind, prog_mbind;
    try (destruct (truthy (arg args "agent_key")); cbn [negb]; [ | exact I ]);
    reflexivity.
Qed.

Lemma handler_first_unparsed (t : Tool) (args : Args) (res : Response) (m : string) :
  ok res = true -> json res = Raise m ->
  throws_on_first (handler_ t args) (Resolved res) m.
Proof.
  intros Hok Hjson.
  destruct t; cbn [handler]; unfold_handlers; unfold fetch, mbind, prog_mbind;
    try (destruct (truthy (arg args "agent_key")); cbn [negb]; [ | exact I ]);
    cbn [prog_bind throws_on_first]; rewrite Hok, Hjson; reflexivity.
Qed.

Lemma failure_message_unparsed (t : Tool) (args : Args) (res : Response) (m : string) :
  error_fields t <> None -> json res = Raise m -> failure_message t args res = m.
Proof.
  intros Hf Hjson. unfold failure_message.
  destruct (error_fields t) as [names |]; [| congruence].
  destruct (pending_guidance t); unfold pending_or, api_error; rewrite Hjson; reflexivity.
Qed.

(** X11. An answer the handler cannot read ends the call with the bare
    message of the failure: a rejected fetch, or a body that is not JSON (on
    an ok response of any tool, and on a failed response of the tools that
    read the error body), comes back as the error result carrying the message
    of the network error or of the parser, and no further request follows. *)
Theorem X11_unreadable_answers_are_reported_verbatim :
  forall (St : Type) (respond : St -> Request -> FetchResult * St)
         (t : Tool) (args : Args) (s : St)
         (ans : FetchResult) (rest : list FetchResult) (m : string),
    let r := exec respond (call (tool_name t) args) s in
    received r = ans :: rest ->
    ans = Rejected m
    \/ (exists res, ans = Resolved res /\ json res = Raise m
                    /\ (ok res = true \/ error_fields t <> None)) ->
    outcome r = Value {| text := "Error: " +:+ m; isError := true |}
    /\ rest = [] /\ length (sent r) = 1%nat.
Proof.
  intros St respond t args s ans rest m r Hrec Hans. subst r.
  rewrite exec_call in Hrec |- *. cbn [outcome received sent] in Hrec |- *.
  assert (Hthrow : throws_on_first (handler_ t args) ans m).
  { destruct Hans as [-> | (res & -> & Hjson & Hwhy)].
    - apply handler_first_rejected.
    - destruct (ok res) eqn:Hok.
      + now apply handler_first_unparsed.
      + destruct Hwhy as [Hwhy | Hwhy]; [discriminate |].
        rewrite <- (failure_message_unparsed t args res m Hwhy Hjson).
        now apply handler_first_failure. }
  destruct (throws_on_first_exec respond _ s ans m rest Hthrow Hrec) as (-> & -> & ->).
  auto.
Qed.

(** ** Where the credential travels *)

Lemma alike_fetch_then {A : Type} (req req' : Request) (f g : Response -> Prog A) :
  unheaded req = unheaded req' ->
  (forall res, alike_but_headers (f res) (g res)) ->
  alike_but_headers (fetch req ≫= f) (fetch req' ≫= g).
Proof.
  intros Hreq Hfg. unfold mbind, prog_mbind, fetch. cbn.
  apply alike_Fetch; [exact Hreq |].
  intros [res | m]; cbn; [apply Hfg | now apply alike_leaf].
Qed.

Lemma alike_bind_lift {A B : Type} (r : Res A) (f g : A -> Prog B) :
  (forall a, alike_but_headers (f a) (g a)) ->
  alike_but_headers (lift r ≫= f) (lift r ≫= g).
Proof. intros Hfg. destruct r as [a | m]; cbn; [apply Hfg | now apply alike_leaf]. Qed.

Lemma alike_bind {A B : Type} (p q : Prog A) (f g : A -> Prog B) :
  alike_but_headers p q ->
  (forall a, silent (f a)) -> (forall a, silent (g a)) ->
  alike_but_headers (p ≫= f) (q ≫= g).
Proof.
  intros Hpq Hf Hg. induction Hpq as [p q Hp Hq | req req' k k' Hreq Hk IH].
  - apply alike_leaf; now apply silent_bind.
  - unfold mbind, prog_mbind. cbn. apply alike_Fetch; [exact Hreq | exact IH].
Qed.

Lemma alike_exec {A : Type} (p q : Prog A) (script : list FetchResult) :
  alike_but_headers p q ->
  map unheaded (sent (exec scripted p script)) = map unheaded (sent (exec scripted q script)).
Proof.
  intros Hpq. revert script.
  induction Hpq as [p q Hp Hq | req req' k k' Hreq Hk IH]; intros script.
  - destruct (silent_exec scripted p script Hp) as [-> _].
    destruct (silent_exec scripted q script Hq) as [-> _]. reflexivity.
  - cbn [exec].
    assert (Hs : scripted script req' = scripted script req) by now destruct script.
    rewrite Hs. destruct (scripted script req) as [ans rest].
    cbn [sent map]. rewrite Hreq. f_equal. apply IH.
Qed.

Ltac alike_tac :=
  repeat first
    [ solve [ apply alike_leaf; no_fetch_tac ]
    | match goal with
      | |- alike_but_headers (if ?c then _ else _) _ => destruct c
      end
    | apply alike_fetch_then; [ reflexivity | intros ? ]
    | apply alike_bind_lift; intros ?
    | apply alike_bind; [ | intros ?; no_fetch_tac | intros ?; no_fetch_tac ] ].

Lemma handler_alike (t : Tool) (args : Args) (v v' : JValue) :
  truthy v = true -> truthy v' = true ->
  alike_but_headers (handler_ t (<["agent_key" := v]> args))
                    (handler_ t (<["agent_key" := v']> args)).
Proof.
  intros Hv Hv'.
  destruct t; cbn [handler]; unfold_handlers; unfold job_path, listing_path;
    rewrite ?arg_insert; cbn [String.eqb Ascii.eqb Bool.eqb];
    rewrite ?Hv, ?Hv'; cbn [negb];
    alike_tac.
Qed.

(** X12. The credential travels in the X-Agent-Key header and nowhere else:
    two calls that differ only in a (non-empty) agent_key and receive the same
    answers send the same requests up to the headers, so the key is in no
    address, query or body. *)
Theorem X12_credential_travels_in_the_header_only :
  forall (t : Tool) (args : Args) (v v' : JValue) (script : list FetchResult),
    truthy v = true -> truthy v' = true ->
    map unheaded (sent (exec scripted (call (tool_name t) (<["agent_key" := v]> args)) script))
    = map unheaded
        (sent (exec scripted (call (tool_name t) (<["agent_key" := v']> args)) script)).
Proof.
  intros t args v v' script Hv Hv'. rewrite !exec_call. cbn [sent].
  apply alike_exec. now apply handler_alike.
Qed.

(** ** When create_job_offer succeeds *)

Lemma job_offer_created_defined (args : Args) (job human : JValue) :
  (exists shown, job_offer_created args job human = Value shown)
  <-> job <> JUndefined /\ job <> JNull /\ human <> JUndefined /\ human <> JNull.
Proof.
  unfold job_offer_created. split.
  - intros [shown H].
    destruct job, human; destruct (truthy (arg args "callback_url"));
      cbn in H; try discriminate H; repeat split; discriminate.
  - intros (Hj1 & Hj2 & Hh1 & Hh2).
    destruct job, human; try congruence;
      destruct (truthy (arg args "callback_url")); cbn; eexists; reflexivity.
Qed.

Ltac not_usable :=
  split;
  [ intros [shown H]; discriminate H
  | intros (_ & r1 & r2 & job' & human' & H & H1 & H2 & H3 & H4 & _);
    first [ discriminate H | injection H as <- <-; congruence ] ].

Lemma create_job_offer_run {St : Type} (respond : St -> Request -> FetchResult * St)
    (args : Args) (s : St) :
  let r := exec respond (handle_create_job_offer API_BASE args) s in
  (exists shown, outcome r = Value shown)
  <-> truthy (arg args "agent_key") = true
      /\ exists res1 res2 job human,
           received r = [Resolved res1; Resolved res2]
           /\ ok res1 = true /\ ok res2 = true
           /\ json res1 = Value job /\ json res2 = Value human
           /\ job <> JUndefined /\ job <> JNull
           /\ human <> JUndefined /\ human <> JNull.
Proof.
  unfold handle_create_job_offer, getHuman, fetch, mbind, prog_mbind.
  destruct (truthy (arg args "agent_key")) eqn:Hkey; cbn [negb].
  2:{ cbn. split; [intros [shown H]; discriminate H | intros [H _]; discriminate H]. }
  cbn [prog_bind exec].
  match goal with |- context [respond s ?req] => destruct (respond s req) as [[res1 | m] s1] end;
    cbn [prog_bind exec outcome received]; [| not_usable].
  destruct (ok res1) eqn:Hok1; cbn [negb prog_bind exec outcome received]; [| not_usable].
  destruct (json res1) as [job | m] eqn:Hjson1;
    cbn [lift prog_bind exec outcome received]; [| not_usable].
  match goal with |- context [respond s1 ?req] => destruct (respond s1 req) as [[res2 | m] s2] end;
    cbn [prog_bind exec outcome received]; [| not_usable].
  destruct (ok res2) eqn:Hok2; cbn [negb prog_bind exec outcome received]; [| not_usable].
  destruct (json res2) as [human | m] eqn:Hjson2;
    cbn [lift prog_bind exec outcome received]; [| not_usable].
  pose proof (job_offer_created_defined args job human) as Hdef.
  destruct (job_offer_created args job human) as [shown | m] eqn:Htext;
    cbn [lift exec outcome received].
  - split; [| eauto]. intros _. split; [reflexivity |].
    exists res1, res2, job, human.
    destruct (proj1 Hdef (ex_intro _ shown eq_refl)) as (? & ? & ? & ?). auto 12.
  - split; [intros [shown H]; discriminate H |].
    intros (_ & r1 & r2 & job' & human' & H & H1 & H2 & H3 & H4 & H5).
    injection H as <- <-.
    assert (job' = job) by congruence. assert (human' = human) by congruence. subst.
    destruct (proj2 Hdef H5) as [shown Hshown]. discriminate Hshown.
Qed.


(** ** create_job_offer in index.ts and in tools.ts *)

(** X14. An offer without payment or stream terms goes out as index.ts sent
    it: against every collaborator the create_job_offer of tools.ts and that
    of index.ts send the same requests, receive the same answers and leave
    the collaborator in the same state; and a refusal of the creation with
    any status but 403 is reported with the same message. *)
Theorem X14_offer_without_stream_terms_is_sent_as_before :
  forall (St : Type) (respond : St -> Request -> FetchResult * St)
         (offer_text : Args -> JValue -> JValue -> Res string) (args : Args) (s : St),
    (forall k, In k stream_terms -> arg args k = JUndefined) ->
    let new := exec respond (handler_ create_job_offer args) s in
    let old := exec respond (IndexTs.handle_create_job_offer API_BASE offer_text args) s in
    sent new = sent old /\ received new = received old /\ final new = final old
    /\ (forall res rest,
          received old = Resolved res :: rest -> ok res = false -> status res <> 403 ->
          outcome new = outcome old).
Proof.
  intros St respond offer_text args s Hterms. cbn zeta. cbn [handler].
  unfold handle_create_job_offer, IndexTs.handle_create_job_offer, getHuman,
    IndexTs.getHuman, fetch, mbind, prog_mbind.
  rewrite (Hterms "payment_mode"), (Hterms "payment_timing"), (Hterms "stream_method"),
    (Hterms "stream_interval"), (Hterms "stream_rate_usdc"), (Hterms "stream_max_ticks")
    by (cbn; tauto).
  unfold json_body. cbn [List.filter snd].
  destruct (truthy (arg args "agent_key")); cbn [negb];
    [| cbn; repeat split; intros; discriminate].
  cbn [prog_bind exec].
  match goal with |- context [respond s ?req] => destruct (respond s req) as [[res1 | m] s1] end;
    cbn [prog_bind exec outcome sent received final];
    [| repeat split; intros; discriminate].
  destruct (ok res1) eqn:Hok1; cbn [negb prog_bind exec outcome sent received final].
  - assert (Hfin : forall (A : Type) (o o' : Res A) (sn : list Request)
                           (rc : list FetchResult) (fn : St),
               sn = sn /\ Resolved res1 :: rc = Resolved res1 :: rc /\ fn = fn
               /\ (forall res rest,
                     Resolved res1 :: rc = Resolved res :: rest -> ok res = false ->
                     status res <> 403 -> o = o')).
    { intros A o o' sn rc fn. repeat split.
      intros res rest Hrec Hok. injection Hrec as <- _. congruence. }
    destruct (json res1) as [job | m]; cbn [lift prog_bind exec outcome sent received final];
      [| apply Hfin].
    match goal with
    | |- context [respond s1 ?req] => destruct (respond s1 req) as [[res2 | m] s2]
    end; cbn [prog_bind exec outcome sent received final]; [| apply Hfin].
    destruct (ok res2); cbn [negb prog_bind exec outcome sent received final];
      [| apply Hfin].
    destruct (json res2); cbn [lift prog_bind exec outcome sent received final];
      [| apply Hfin].
    destruct (job_offer_created args job _), (offer_text args job _); apply Hfin.
  - repeat split. intros res rest Hrec Hok Hstatus. injection Hrec as <- <-.
    unfold pending_or, api_error.
    destruct (status res1 =? 403) eqn:E; [apply Z.eqb_eq in E; contradiction |].
    destruct (json res1); reflexivity.
Qed.

(** ** Calls that are answered well *)

Lemma ret_bind {A B : Type} (a : A) (f : A -> Prog B) : Ret a ≫= f = f a.
Proof. reflexivity. Qed.

Lemma returns_on_ok_bind {A B : Type} (Q : A -> Prop) (R : B -> Prop)
    (p : Prog A) (f : A -> Prog B) :
  returns_on_ok Q p -> (forall a, Q a -> returns_on_ok R (f a)) ->
  returns_on_ok R (p ≫= f).
Proof.
  unfold mbind, prog_mbind.
  induction p as [a | m | req k IH]; cbn; [auto | tauto |].
  intros Hk Hf res v Hok Hjson Hv. apply IH; [eapply Hk; eassumption | exact Hf].
Qed.

Lemma returns_on_ok_fetch_then {A : Type} (Q : A -> Prop) (req : Request)
    (f : Response -> Prog A) :
  (forall res v, ok res = true -> json res = Value v -> non_null v ->
                 returns_on_ok Q (f res)) ->
  returns_on_ok Q (fetch req ≫= f).
Proof. intros Hf. unfold mbind, prog_mbind, fetch. cbn. exact Hf. Qed.

Lemma returns_on_ok_exec {A St : Type} (respond : St -> Request -> FetchResult * St)
    (Q : A -> Prop) (p : Prog A) (s : St) :
  returns_on_ok Q p ->
  (forall s req, exists res v,
      fst (respond s req) = Resolved res /\ ok res = true /\ json res = Value v
      /\ non_null v) ->
  exists a, outcome (exec respond p s) = Value a /\ Q a.
Proof.
  intros Hp Hgood. revert s Hp. induction p as [a | m | req k IH]; intros s Hp; cbn.
  - eauto.
  - destruct Hp.
  - destruct (Hgood s req) as (res & v & Hans & Hok & Hjson & Hv).
    destruct (respond s req) as [ans s']. cbn [fst] in Hans. subst ans. cbn.
    apply IH. eapply Hp; eassumption.
Qed.

Lemma handler_returns_on_ok (t : Tool) (args : Args) :
  (In t checks_key -> truthy (arg args "agent_key") = true) ->
  (forall v, exists shown, render t v = Value shown) ->
  (forall v, exists shown, render_args t args v = Value shown) ->
  returns_on_ok (fun _ => True) (handler_ t args).
Proof.
  intros Hkey Hrender Hrender_args.
  destruct t; cbn [handler]; unfold_handlers;
    try (assert (Hk := Hkey ltac:(cbn; tauto)); rewrite Hk; cbn [negb]);
    repeat match goal with
    | |- True => exact I
    | |- non_null _ => assumption
    | |- returns_on_ok _ (Ret _) => cbn [returns_on_ok]
    | |- returns_on_ok _ (mret _) => exact I
    | |- context [lift (render ?t ?v)] =>
        let shown := fresh "shown" in
        destruct (Hrender v) as [shown ->]; cbn [lift]
    | |- context [lift (render_args ?t args ?v)] =>
        let shown := fresh "shown" in
        destruct (Hrender_args v) as [shown ->]; cbn [lift]
    | Hv : non_null ?job |- context [lift (nextStep ?job)] =>
        let step := fresh "step" in
        destruct (nextStep_defined job (proj1 Hv) (proj2 Hv)) as [step ->]; cbn [lift]
    | Hv : non_null ?job, Hv' : non_null ?human
      |- context [lift (job_offer_created args ?job ?human)] =>
        let shown := fresh "shown" in
        destruct (proj2 (job_offer_created_defined args job human)
                    (conj (proj1 Hv) (conj (proj2 Hv) Hv'))) as [shown ->];
        cbn [lift]
    | |- returns_on_ok _ (Ret _ ≫= _) => rewrite ret_bind; cbn beta
    | |- returns_on_ok _ (fetch _ ≫= _) =>
        let Hok := fresh "Hok" in
        let Hjson := fresh "Hjson" in
        apply returns_on_ok_fetch_then;
        intros ? ? Hok Hjson ?; rewrite Hok, ?Hjson; cbn [negb lift]
    | |- returns_on_ok _ ((_ ≫= _) ≫= _) =>
        apply (returns_on_ok_bind non_null); [ | intros ? ? ]
    end.
Qed.


(** ** The one branch that sends without a key *)

Lemma verify_agent_domain_single (args : Args) :
  exists req,
    single req (handler_ verify_agent_domain args)
    /\ header (headers req) "X-Agent-Key" = Some (to_string (arg args "agent_key")).
Proof.
  cbn [handler]. unfold handle_verify_agent_domain. eexists. split.
  - apply single_fetch_then. intros ?. no_fetch_tac.
  - reflexivity.
Qed.

(** X18. Among the tools whose schema requires agent_key, verify_agent_domain
    alone sends its request when the key is missing or empty: every other one
    sends nothing, and verify_agent_domain sends its one request with the text
    of the missing value (undefined, null or the empty text) as the
    X-Agent-Key header. *)
Theorem X18_verify_agent_domain_alone_sends_without_a_key :
  forall (St : Type) (respond : St -> Request -> FetchResult * St)
         (t : Tool) (d : ToolDecl) (args : Args) (s : St),
    declaration (tool_name t) = Some d ->
    In "agent_key" (decl_required d) ->
    truthy (arg args "agent_key") = false ->
    let r := exec respond (call (tool_name t) args) s in
    (t <> verify_agent_domain -> sent r = [])
    /\ (t = verify_agent_domain ->
        exists req,
          sent r = [req]
          /\ header (headers req) "X-Agent-Key" = Some (to_string (arg args "agent_key"))).
Proof.
  intros St respond t d args s Hd Hin Hkey r. subst r. rewrite exec_call. cbn [sent].
  assert (Hchecks : In t checks_key \/ t = verify_agent_domain).
  { destruct t; vm_compute in Hd; injection Hd as <-; cbn [decl_required] in Hin;
      first [ exfalso; cbn in Hin; intuition discriminate
            | right; reflexivity
            | left; cbn; tauto ]. }
  destruct Hchecks as [Hc | ->].
  - split.
    + intros _. destruct (missing_key_throws API_BASE render render_args t args Hc Hkey)
        as (msg & -> & _). reflexivity.
    + intros ->. exfalso. cbn in Hc. intuition discriminate.
  - split; [congruence |]. intros _.
    destruct (verify_agent_domain_single args) as (req & Hs & Hh).
    exists req. rewrite (single_exec respond _ _ s Hs). auto.
Qed.

End ServerFacts.

(** ** record_job of the bundled release *)


(** ** The client of the integration tests *)

Module TestClientFacts.
Import TestClient.

Lemma split_lf_cons (c : ascii) (s : string) :
  split_lf (String c s) =
  if Ascii.eqb c (ascii_of_nat 10) then EmptyString :: split_lf s
  else match split_lf s with
       | piece :: pieces => String c piece :: pieces
       | [] => [String c EmptyString]
       end.
Proof. reflexivity. Qed.

Lemma split_lf_nonempty (s : string) : split_lf s <> [].
Proof.
  induction s as [| c s IH]; [discriminate |].
  rewrite split_lf_cons. destruct (Ascii.eqb c _); [discriminate |].
  destruct (split_lf s); discriminate.
Qed.

Lemma split_lf_no_lf (s : string) : Forall (fun line => no_lf line = true) (split_lf s).
Proof.
  induction s as [| c s IH]; [repeat constructor |].
  rewrite split_lf_cons. destruct (Ascii.eqb c _) eqn:Hc.
  - constructor; [reflexivity | exact IH].
  - destruct (split_lf s) as [| piece pieces]; [repeat constructor; cbn; now rewrite Hc |].
    inversion IH as [| ? ? Hp Hps]; subst.
    constructor; [cbn; now rewrite Hc, Hp | exact Hps].
Qed.

Lemma split_lf_line (s : string) : no_lf s = true -> split_lf s = [s].
Proof.
  induction s as [| c s IH]; [reflexivity |].
  cbn [no_lf]. intros H. apply andb_true_iff in H as [Hc Hs].
  rewrite split_lf_cons. apply negb_true_iff in Hc. rewrite Hc, (IH Hs). reflexivity.
Qed.

Lemma removelast_cons2 {A : Type} (x y : A) (l : list A) :
  removelast (x :: y :: l) = x :: removelast (y :: l).
Proof. reflexivity. Qed.

Lemma last_cons2 {A : Type} (x y : A) (l : list A) (d : A) :
  List.last (x :: y :: l) d = List.last (y :: l) d.
Proof. reflexivity. Qed.

(** Splitting a text in two pieces and splitting the second piece after the
    unfinished line of the first gives the lines of the whole. *)
Lemma split_lf_app (x y : string) :
  split_lf (x +:+ y) =
  (removelast (split_lf x) ++ split_lf (List.last (split_lf x) EmptyString +:+ y))%list.
Proof.
  induction x as [| c x IH]; [reflexivity |].
  change (String c x +:+ y) with (String c (x +:+ y)).
  rewrite !split_lf_cons. destruct (Ascii.eqb c _) eqn:Hc.
  - pose proof (split_lf_nonempty x) as Hne.
    destruct (split_lf x) as [| p ps] eqn:Hx; [congruence |].
    rewrite removelast_cons2, last_cons2, IH. reflexivity.
  - rewrite IH.
    pose proof (split_lf_nonempty x) as Hne.
    destruct (split_lf x) as [| p ps] eqn:Hx; [congruence |].
    destruct ps as [| p' ps].
    + cbn [removelast List.last app].
      change (String c p +:+ y) with (String c (p +:+ y)).
      rewrite split_lf_cons, Hc. reflexivity.
    + rewrite !removelast_cons2, !last_cons2. cbn [app].
      pose proof (split_lf_nonempty (List.last (p' :: ps) EmptyString +:+ y)) as Hne'.
      destruct (removelast (p' :: ps) ++ split_lf (List.last (p' :: ps) EmptyString +:+ y))%list
        eqn:Hr; [| reflexivity].
      apply app_eq_nil in Hr as [_ Hr]. congruence.
Qed.

Lemma last_app_nonempty {A : Type} (l l' : list A) (d : A) :
  l' <> [] -> List.last (l ++ l')%list d = List.last l' d.
Proof.
  intros Hne. induction l as [| x l IH]; [reflexivity |].
  cbn [app]. destruct (l ++ l')%list eqn:Hl.
  - apply app_eq_nil in Hl as [_ Hl]. congruence.
  - rewrite last_cons2. exact IH.
Qed.

Lemma append_nil_r (s : string) : s +:+ EmptyString = s.
Proof.
  induction s as [| c s IH]; [reflexivity |].
  change (String c (s +:+ EmptyString) = String c s). now rewrite IH.
Qed.

Lemma append_assoc (a b c : string) : (a +:+ b) +:+ c = a +:+ (b +:+ c).
Proof.
  induction a as [| x a IH]; [reflexivity |].
  change (String x ((a +:+ b) +:+ c) = String x (a +:+ (b +:+ c))). now rewrite IH.
Qed.

Lemma on_data_buffer (buffer chunk : string) : no_lf (snd (on_data buffer chunk)) = true.
Proof.
  unfold on_data. cbn [snd].
  pose proof (split_lf_no_lf (buffer +:+ chunk)) as Hall.
  pose proof (split_lf_nonempty (buffer +:+ chunk)) as Hne.
  induction (split_lf (buffer +:+ chunk)) as [| p ps IH]; [congruence |].
  inversion Hall as [| ? ? Hp Hps]; subst.
  destruct ps as [| p' ps]; [exact Hp |].
  rewrite last_cons2. apply IH; [exact Hps | discriminate].
Qed.

Lemma feed_on_data (chunks : list string) (buffer : string) :
  no_lf buffer = true -> feed buffer chunks = on_data buffer (joined chunks).
Proof.
  revert buffer. induction chunks as [| chunk rest IH]; intros buffer Hb.
  - unfold joined. cbn [feed fold_right]. unfold on_data.
    rewrite append_nil_r, (split_lf_line buffer Hb). reflexivity.
  - unfold joined. cbn [feed fold_right]. fold (joined rest).
    pose proof (on_data_buffer buffer chunk) as Hb'.
    destruct (on_data buffer chunk) as [lines buffer'] eqn:Hd. cbn [snd] in Hb'.
    rewrite (IH buffer' Hb').
    unfold on_data in Hd |- *. injection Hd as <- <-.
    rewrite <- append_assoc, (split_lf_app (buffer +:+ chunk) (joined rest)).
    rewrite removelast_app by apply split_lf_nonempty.
    rewrite last_app_nonempty by apply split_lf_nonempty.
    reflexivity.
Qed.

Lemma unlines_split_lf (s : string) :
  unlines (removelast (split_lf s)) +:+ List.last (split_lf s) EmptyString = s.
Proof.
  induction s as [| c s IH]; [reflexivity |].
  rewrite split_lf_cons.
  pose proof (split_lf_nonempty s) as Hne.
  destruct (Ascii.eqb c _) eqn:Hc.
  - apply Ascii.eqb_eq in Hc. subst c.
    destruct (split_lf s) as [| p ps] eqn:Hs; [congruence |].
    rewrite removelast_cons2, last_cons2. cbn [unlines].
    change (EmptyString +:+ nl +:+ unlines (removelast (p :: ps)))
      with (String (ascii_of_nat 10) (unlines (removelast (p :: ps)))).
    change (String (ascii_of_nat 10) (unlines (removelast (p :: ps)))
            +:+ List.last (p :: ps) EmptyString)
      with (String (ascii_of_nat 10)
              (unlines (removelast (p :: ps)) +:+ List.last (p :: ps) EmptyString)).
    now rewrite IH.
  - destruct (split_lf s) as [| p ps] eqn:Hs; [congruence |].
    destruct ps as [| p' ps].
    + change (p = s) in IH. change (String c p = String c s). now rewrite IH.
    + rewrite removelast_cons2, last_cons2 in IH |- *. cbn [unlines] in IH |- *.
      change ((String c p +:+ nl +:+ unlines (removelast (p' :: ps)))
              +:+ List.last (p' :: ps) EmptyString)
        with (String c ((p +:+ nl +:+ unlines (removelast (p' :: ps)))
                        +:+ List.last (p' :: ps) EmptyString)).
      now rewrite IH.
Qed.

End TestClientFacts.

(** X15. The test client frames the server's output by lines whatever the
    chunks are: the lines it hands on and the text it keeps buffered are those
    of the whole text received so far, wherever the chunk boundaries fall; no
    line and no buffer holds a line feed; and the lines, each with its line
    feed, followed by the buffer are the text received. *)
Theorem X15_client_frames_lines_whatever_the_chunks :
  forall chunks : list string,
    let lines := fst (TestClient.feed EmptyString chunks) in
    let buffer := snd (TestClient.feed EmptyString chunks) in
    TestClient.feed EmptyString chunks
      = TestClient.on_data EmptyString (TestClient.joined chunks)
    /\ Forall (fun line => TestClient.no_lf line = true) lines
    /\ TestClient.no_lf buffer = true
    /\ TestClient.unlines lines +:+ buffer = TestClient.joined chunks.
Proof.
  intros chunks lines buffer. subst lines buffer.
  rewrite (TestClientFacts.feed_on_data chunks EmptyString eq_refl).
  split; [reflexivity |].
  unfold TestClient.on_data. cbn [fst snd].
  change (EmptyString +:+ TestClient.joined chunks) with (TestClient.joined chunks).
  split; [| split].
  - pose proof (TestClientFacts.split_lf_no_lf (TestClient.joined chunks)) as Hall.
    induction (TestClient.split_lf (TestClient.joined chunks)) as [| p ps IH];
      [constructor |].
    inversion Hall as [| ? ? Hp Hps]; subst.
    destruct ps as [| p' ps]; [constructor |].
    rewrite TestClientFacts.removelast_cons2. constructor; [exact Hp | apply IH, Hps].
  - exact (TestClientFacts.on_data_buffer EmptyString (TestClient.joined chunks)).
  - apply TestClientFacts.unlines_split_lf.
Qed.

(** ** Concrete runs of the further properties *)


(** create_job_offer declares agent_key, and the call carries hp_pending. *)
Lemma X5_witness_offer_carries_the_declared_key :
  exists d req rest,
    declaration (tool_name create_job_offer) = Some d
    /\ In "agent_key" (decl_required d)
    /\ sent (exec scripted (sample_call (tool_name create_job_offer) offer_args) [])
       = req :: rest
    /\ header (headers req) "X-Agent-Key" = Some "hp_pending".
Proof.
  destruct (declaration (tool_name create_job_offer)) as [d |] eqn:Hd; [| discriminate Hd].
  destruct (X5_credential_follows_the_schema sample_base sample_render sample_render_args
              (list FetchResult) scripted create_job_offer d offer_args [] Hd)
    as [Hkeyed _].
  assert (Hin : In "agent_key" (decl_properties d)).
  { vm_compute in Hd. injection Hd as <-. cbn. tauto. }
  destruct (Hkeyed Hin) as [Hreq Hsent].
  destruct (Hsent eq_refl) as (req & rest & Hs & Hh).
  exists d, req, rest. auto.
Defined.

(** An argument get_human does not read changes nothing. *)
Lemma X6_witness_get_human_ignores_other_arguments :
  exec scripted (sample_call (tool_name get_human) profile_args) [ found (JObj []) ]
  = exec scripted (sample_call (tool_name get_human) (<["verbose" := JBool true]> profile_args))
      [ found (JObj []) ].
Proof.
  apply (X6_call_depends_on_the_arguments_it_reads sample_base sample_render
           sample_render_args (list FetchResult) scripted get_human profile_args
           (<["verbose" := JBool true]> profile_args) [ found (JObj []) ]).
  - intros k [<- | []]. reflexivity.
  - intros result. reflexivity.
Defined.

(** The latitude of the agent changes nothing in create_job_offer. *)
Lemma X7_witness_offer_ignores_the_latitude :
  sample_call (tool_name create_job_offer) (<["agent_lat" := JNum 52]> offer_args)
  = sample_call (tool_name create_job_offer) offer_args.
Proof.
  destruct (declaration (tool_name create_job_offer)) as [d |] eqn:Hd; [| discriminate Hd].
  assert (Hin : In "agent_lat" (decl_properties d)).
  { vm_compute in Hd. injection Hd as <-. cbn. tauto. }
  apply (proj2 (X7_only_the_offer_coordinates_are_ignored sample_base sample_render
                  sample_render_args create_job_offer d "agent_lat" Hd Hin)).
  split; [reflexivity | left; reflexivity].
Defined.


(** An accepted one-time job reads the same in both servers. *)
Lemma X10_witness_accepted_job_reads_as_in_index_ts :
  nextStep (JObj [ ("status", JStr "ACCEPTED"); ("priceUsdc", JNum 25) ])
  = IndexTs.nextStep (JObj [ ("status", JStr "ACCEPTED"); ("priceUsdc", JNum 25) ]).
Proof.
  apply (X10_next_step_extends_index_ts [ ("status", JStr "ACCEPTED"); ("priceUsdc", JNum 25) ]).
  - left. reflexivity.
  - reflexivity.
  - reflexivity.
Defined.

(** mark_job_paid answered 200 with a body that is no JSON: the payment was
    recorded and the caller is told of a parse error. *)
Lemma X11_witness_payment_recorded_yet_reported_unparsed :
  outcome (exec scripted (sample_call (tool_name mark_job_paid) paid_args) [ not_json ])
  = Value {| text := "Error: Unexpected end of JSON input"; isError := true |}.
Proof.
  apply (X11_unreadable_answers_are_reported_verbatim sample_base sample_render
           sample_render_args (list FetchResult) scripted mark_job_paid paid_args
           [ not_json ] not_json [] "Unexpected end of JSON input").
  - reflexivity.
  - right. eexists. split; [reflexivity |]. split; [reflexivity |]. left. reflexivity.
Defined.

(** Two offers that differ in the key alone send the same two requests but
    for the headers. *)
Lemma X12_witness_offers_differ_in_the_header_only :
  let answers := [ created (JObj [ ("id", JStr "job_1"); ("status", JStr "PENDING") ]);
                   found (JObj [ ("name", JStr "Ada") ]) ] in
  map unheaded
    (sent (exec scripted
             (sample_call (tool_name create_job_offer) (<["agent_key" := JStr "hp_one"]> offer_args))
             answers))
  = map unheaded
      (sent (exec scripted
               (sample_call (tool_name create_job_offer)
                  (<["agent_key" := JStr "hp_two"]> offer_args))
               answers)).
Proof.
  apply (X12_credential_travels_in_the_header_only sample_base sample_render sample_render_args
           create_job_offer offer_args (JStr "hp_one") (JStr "hp_two")); reflexivity.
Defined.

(** The sample offer names no stream term: both servers send the same. *)
Lemma X14_witness_sample_offer_is_sent_as_before :
  let answers := [ created (JObj [ ("id", JStr "job_1"); ("status", JStr "PENDING") ]);
                   found (JObj [ ("name", JStr "Ada") ]) ] in
  sent (exec scripted (handler sample_base sample_render sample_render_args
                         create_job_offer offer_args) answers)
  = sent (exec scripted (IndexTs.handle_create_job_offer sample_base sample_offer_text
                           offer_args) answers).
Proof.
  intros answers.
  refine (proj1 (X14_offer_without_stream_terms_is_sent_as_before sample_base sample_render
                   sample_render_args (list FetchResult) scripted sample_offer_text
                   offer_args answers _)).
  intros k Hk. cbn in Hk.
  repeat (destruct Hk as [<- | Hk]; [reflexivity |]). destruct Hk.
Defined.


(** verify_agent_domain without a key sends the header undefined. *)
Lemma X18_witness_domain_check_without_a_key :
  exists req,
    sent (exec scripted
            (sample_call (tool_name verify_agent_domain)
               (list_to_map [ ("agent_id", JStr "agent_1"); ("method", JStr "dns") ])) [])
    = [req]
    /\ header (headers req) "X-Agent-Key" = Some "undefined".
Proof.
  destruct (declaration (tool_name verify_agent_domain)) as [d |] eqn:Hd; [| discriminate Hd].
  assert (Hin : In "agent_key" (decl_required d)).
  { vm_compute in Hd. injection Hd as <-. cbn. tauto. }
  exact (proj2 (X18_verify_agent_domain_alone_sends_without_a_key sample_base sample_render
                  sample_render_args (list FetchResult) scripted verify_agent_domain d
                  (list_to_map [ ("agent_id", JStr "agent_1"); ("method", JStr "dns") ]) []
                  Hd Hin eq_refl) eq_refl).
Defined.
